(** * go-database: the B+Tree node codec and builders of [btree.go]

    A shallow embedding of the page format and of the node-local
    operations of [btree.go].

    - A [BNode] is a Go byte slice; it is modelled as a [list byte] whose
      length is both the length and the capacity of the slice.
    - [uint16] and [uint64] values are integers in [Z]; every arithmetic
      operation the source performs on them is followed by its wrap-around
      ([u16], [u64]).
    - A Go panic (a failed [utils.Assert], or a slice / index expression
      that is out of range) is a [Fault]; every operation that can panic
      returns a [result].
    - A function that writes into a buffer returns the updated buffer.
      The buffers that a function receives ([new], [old], the children)
      are distinct slices, as in every call in the source. *)

From Stdlib Require Import String ZArith List Lia Bool.
From coqutil Require Import Byte Word.LittleEndianList.
From coqutil Require Datatypes.List.
Import ListNotations.
Local Open Scope Z_scope.

(** ** Faults and the result monad *)

Inductive fault : Type :=
| AssertFailed (msg : string)   (* utils.Assert(false, msg) *)
| OutOfRange.                   (* slice bounds / index out of range *)

Inductive result (A : Type) : Type :=
| Ok (a : A)
| Fault (f : fault).
Arguments Ok {A} a.
Arguments Fault {A} f.

Definition bind {A B : Type} (m : result A) (k : A -> result B) : result B :=
  match m with
  | Ok a => k a
  | Fault f => Fault f
  end.

Notation "x <- m ;; k" := (bind m (fun x => k))
  (at level 61, m at next level, right associativity).
Notation "m ;;; k" := (bind m (fun _ => k))
  (at level 61, right associativity).

(** utils.Assert(cond, msg) *)
Definition Assert (cond : bool) (msg : string) : result unit :=
  if cond then Ok tt else Fault (AssertFailed msg).

(** ** Fixed-width integers *)

Definition u16 (z : Z) : Z := z mod 2 ^ 16.
Definition u64 (z : Z) : Z := z mod 2 ^ 64.

(** len(s), as an integer *)
Definition len {A : Type} (l : list A) : Z := Z.of_nat (length l).

(** ** Constants *)

Definition HEADER : Z := 4.
Definition BTREE_PAGE_SIZE : Z := 4096.
Definition BTREE_MAX_KEY_SIZE : Z := 1000.
Definition BTREE_MAX_VAL_SIZE : Z := 3000.

Definition BNode : Type := list byte.

Definition BNODE_NODE : Z := 1.
Definition BNODE_LEAF : Z := 2.

(** ** Slices of a buffer *)

(** [node[pos:][:n]]: the [n] bytes at [pos]; out of range when
    [pos + n] exceeds the buffer. *)
Definition load (node : BNode) (pos n : Z) : result (list byte) :=
  if (0 <=? pos) && (0 <=? n) && (pos + n <=? len node)
  then Ok (firstn (Z.to_nat n) (skipn (Z.to_nat pos) node))
  else Fault OutOfRange.

(** The buffer [node] with the bytes of [src] written from position
    [pos] on; the bytes that would fall past the end are dropped and the
    length does not change. *)
Definition write (node : BNode) (pos : Z) (src : list byte) : BNode :=
  List.upds node (Z.to_nat pos) src.

(** [copy(node[pos:], src)]: the slice expression panics when [pos] is
    past the end; [copy] itself writes as many bytes as fit. *)
Definition copy_at (node : BNode) (pos : Z) (src : list byte) : result BNode :=
  if (0 <=? pos) && (pos <=? len node)
  then Ok (write node pos src)
  else Fault OutOfRange.

(** A write of exactly [length src] bytes at [node[pos:]], as the [Put]
    functions of encoding/binary do it: they panic when the destination
    is shorter than the integer. *)
Definition store (node : BNode) (pos : Z) (src : list byte) : result BNode :=
  if (0 <=? pos) && (pos + len src <=? len node)
  then Ok (write node pos src)
  else Fault OutOfRange.

(** binary.LittleEndian.Uint16(node[pos:]) *)
Definition Uint16_at (node : BNode) (pos : Z) : result Z :=
  bs <- load node pos 2 ;; Ok (le_combine bs).

(** binary.LittleEndian.Uint64(node[pos:]) *)
Definition Uint64_at (node : BNode) (pos : Z) : result Z :=
  bs <- load node pos 8 ;; Ok (le_combine bs).

(** binary.LittleEndian.PutUint16(node[pos:], v) *)
Definition PutUint16_at (node : BNode) (pos v : Z) : result BNode :=
  store node pos (le_split 2 v).

(** binary.LittleEndian.PutUint64(node[pos:], v) *)
Definition PutUint64_at (node : BNode) (pos v : Z) : result BNode :=
  store node pos (le_split 8 v).

(** ** Header *)

(** [node[0:2]] and [node[2:4]] are slice expressions with an explicit
    upper bound, read by [load]. *)
Definition btype (node : BNode) : result Z := Uint16_at node 0.

Definition nkeys (node : BNode) : result Z := Uint16_at node 2.

Definition setHeader (node : BNode) (btype nkeys : Z) : result BNode :=
  node1 <- PutUint16_at node 0 btype ;;
  PutUint16_at node1 2 nkeys.

(** ** Pointers *)

Definition getPtr (node : BNode) (idx : Z) : result Z :=
  n <- nkeys node ;;
  Assert (idx <? n) "index less than value" ;;;
  let pos := u16 (HEADER + 8 * idx) in
  Uint64_at node pos.

(** Modelled from the spec: the body of [setPtr] is missing from the
    source (only its signature is there).  Section 4.1 lists
    set-child-pointer(i, id) among the mutators, says that index accesses
    assert [i < key-count] and that all integer fields are little-endian;
    section 6 puts the pointer of key [i] at byte [4 + 8*i]. *)
Definition setPtr (node : BNode) (idx val : Z) : result BNode :=
  n <- nkeys node ;;
  Assert (idx <? n) "index less than value" ;;;
  let pos := u16 (HEADER + 8 * idx) in
  PutUint64_at node pos val.

(** ** Offsets *)

(** Modelled from the spec: the source of [offsetPos] has its assertion
    but no return statement.  Section 6 places the table of 16-bit
    cumulative offsets at byte [4 + 8*count], with offset[0] implicit, so
    the entry of index [idx >= 1] is the [(idx-1)]-th of the table. *)
Definition offsetPos (node : BNode) (idx : Z) : result Z :=
  n <- nkeys node ;;
  Assert ((1 <=? idx) && (idx <=? n)) "not found offset position" ;;;
  Ok (u16 (HEADER + 8 * n + 2 * (idx - 1))).

Definition getOffset (node : BNode) (idx : Z) : result Z :=
  if idx =? 0 then Ok 0
  else
    pos <- offsetPos node idx ;;
    Uint16_at node pos.

(** Modelled from the spec: the body of [setOffset] is missing from the
    source.  Section 4.1: set-offset(i, value) writes the 16-bit
    little-endian entry of the offset table that [getOffset] reads. *)
Definition setOffset (node : BNode) (idx offset : Z) : result BNode :=
  pos <- offsetPos node idx ;;
  PutUint16_at node pos offset.

(** ** Key-value records *)

Definition kvPos (node : BNode) (idx : Z) : result Z :=
  n <- nkeys node ;;
  Assert (idx <=? n) "index is greater than nkeys" ;;;
  off <- getOffset node idx ;;
  Ok (u16 (HEADER + 8 * n + 2 * n + off)).

Definition getKey (node : BNode) (idx : Z) : result (list byte) :=
  n <- nkeys node ;;
  Assert (idx <? n) "index is greater than nkeys" ;;;
  pos <- kvPos node idx ;;
  klen <- Uint16_at node pos ;;
  load node (u16 (pos + 4)) klen.

(** Modelled from the spec: the body of [getVal] is missing from the
    source.  Section 3: a record is key length (16-bit), value length
    (16-bit), key bytes, value bytes; get-value(i) is the accessor of the
    value bytes, with the same bounds assertion as the other accessors. *)
Definition getVal (node : BNode) (idx : Z) : result (list byte) :=
  n <- nkeys node ;;
  Assert (idx <? n) "index is greater than nkeys" ;;;
  pos <- kvPos node idx ;;
  klen <- Uint16_at node pos ;;
  vlen <- Uint16_at node (u16 (pos + 2)) ;;
  load node (u16 (pos + 4 + klen)) vlen.

Definition nbytes (node : BNode) : result Z :=
  n <- nkeys node ;;
  kvPos node n.

(** ** Lookup *)

(** bytes.Compare: the lexicographic comparison of two byte strings,
    as -1, 0 or +1. *)
Fixpoint Compare (a b : list byte) : Z :=
  match a, b with
  | [], [] => 0
  | [], _ :: _ => -1
  | _ :: _, [] => 1
  | x :: a', y :: b' =>
      match byte.unsigned x ?= byte.unsigned y with
      | Lt => -1
      | Gt => 1
      | Eq => Compare a' b'
      end
  end.

(** The loop of [nodeLookupLE], over the indices still to visit.  Beside
    [found] it returns the indices whose key was compared, in order; the
    source has no such list, it is there to state where the scan stops. *)
Fixpoint lookup_scan (node : BNode) (key : list byte) (todo : list Z)
    (found : Z) (seen : list Z) : result (Z * list Z) :=
  match todo with
  | [] => Ok (found, seen)
  | i :: rest =>
      k <- getKey node i ;;
      let cmp := Compare k key in
      let found' := if cmp <=? 0 then i else found in
      if cmp >=? 0 then Ok (found', seen ++ [i])
      else lookup_scan node key rest found' (seen ++ [i])
  end.

(** The indices [lo, lo+1, ..., hi-1] of a [for i := lo; i < hi; i++].
    The bound [hi] is a 16-bit integer, so the counter does not wrap. *)
Definition indices (lo hi : Z) : list Z :=
  map (fun k => lo + Z.of_nat k) (seq 0 (Z.to_nat (hi - lo))).

Definition nodeLookupLE_trace (node : BNode) (key : list byte)
    : result (Z * list Z) :=
  n <- nkeys node ;;
  lookup_scan node key (indices 1 n) 0 [].

Definition nodeLookupLE (node : BNode) (key : list byte) : result Z :=
  r <- nodeLookupLE_trace node key ;; Ok (fst r).

(** ** Builders *)

(** Copy a key-value pair (and its pointer) into position [idx] of a
    node under construction, and set the offset of the next key. *)
Definition nodeAppendKV (new : BNode) (idx ptr : Z) (key val : list byte)
    : result BNode :=
  new1 <- setPtr new idx ptr ;;
  pos <- kvPos new1 idx ;;
  new2 <- PutUint16_at new1 (u16 (pos + 0)) (u16 (len key)) ;;
  new3 <- PutUint16_at new2 (u16 (pos + 2)) (u16 (len val)) ;;
  new4 <- copy_at new3 (u16 (pos + 4)) key ;;
  new5 <- copy_at new4 (u16 (pos + 4 + u16 (len key))) val ;;
  off <- getOffset new5 idx ;;
  setOffset new5 (u16 (idx + 1)) (u16 (off + 4 + u16 (len key + len val))).

(** Modelled from the spec: the loop of [nodeAppendRange] (see below),
    over the indices [i] still to copy: record [srcOld + i] of [old] goes
    to position [dstNew + i] of [new]. *)
Fixpoint appendRange_loop (new old : BNode) (dstNew srcOld : Z)
    (todo : list Z) : result BNode :=
  match todo with
  | [] => Ok new
  | i :: rest =>
      let dst := u16 (dstNew + i) in
      let src := u16 (srcOld + i) in
      p <- getPtr old src ;;
      k <- getKey old src ;;
      v <- getVal old src ;;
      new' <- nodeAppendKV new dst p k v ;;
      appendRange_loop new' old dstNew srcOld rest
  end.

(** Modelled from the spec: the body of [nodeAppendRange] is missing from
    the source.  Section 4.2: append-range(dst, src, dstStart, srcStart, n)
    copies [n] whole records (pointer, key, value) from [src] starting at
    [srcStart] into [dst] starting at [dstStart], recomputing the offset
    table of [dst] incrementally; so it appends the records one by one
    with [nodeAppendKV]. *)
Definition nodeAppendRange (new old : BNode) (dstNew srcOld n : Z)
    : result BNode :=
  appendRange_loop new old dstNew srcOld (indices 0 n).

(** [old] is not written, so its key count is read once for the two
    uses the source makes of [old.nkeys()]. *)
Definition leafInsert (new old : BNode) (idx : Z) (key val : list byte)
    : result BNode :=
  n <- nkeys old ;;
  new1 <- setHeader new BNODE_LEAF (u16 (n + 1)) ;;
  new2 <- nodeAppendRange new1 old 0 0 idx ;;
  new3 <- nodeAppendKV new2 idx 0 key val ;;
  nodeAppendRange new3 old (u16 (idx + 1)) idx (u16 (n - idx)).

(** The tree handle.  Its three callbacks act on the page store, which
    the source keeps in the closures; here the store is an explicit
    state of type [Store] that [new] and [del] transform. *)
Record BTree (Store : Type) : Type := mkBTree {
  root : Z;
  get : Z -> Store -> result BNode;
  new : BNode -> Store -> Z * Store;
  del : Z -> Store -> Store
}.
Arguments mkBTree {Store}.
Arguments root {Store}.
Arguments get {Store}.
Arguments new {Store}.
Arguments del {Store}.

Section ReplaceKids.
Context {Store : Type}.

(** [for i, node := range kids]: the argument [tree.new(node)] is
    evaluated before [node.getKey(0)]. *)
Fixpoint replaceKids_loop (tree : BTree Store) (st : Store) (nw : BNode)
    (idx i : Z) (kids : list BNode) : result (BNode * Store) :=
  match kids with
  | [] => Ok (nw, st)
  | node :: rest =>
      let (ptr, st') := new tree node st in
      k <- getKey node 0 ;;
      nw' <- nodeAppendKV nw (u16 (idx + u16 i)) ptr k [] ;;
      replaceKids_loop tree st' nw' idx (i + 1) rest
  end.

Definition nodeReplaceKidN (tree : BTree Store) (st : Store)
    (nw old : BNode) (idx : Z) (kids : list BNode)
    : result (BNode * Store) :=
  let inc := u16 (len kids) in
  n <- nkeys old ;;
  nw1 <- setHeader nw BNODE_NODE (u16 (u16 (n + inc) - 1)) ;;
  nw2 <- nodeAppendRange nw1 old 0 0 idx ;;
  r <- replaceKids_loop tree st nw2 idx 0 kids ;;
  let (nw3, st') := r in
  nw4 <- nodeAppendRange nw3 old (u16 (idx + inc)) (u16 (idx + 1))
           (u16 (n - u16 (idx + 1))) ;;
  Ok (nw4, st').
End ReplaceKids.

(** ** Splitting *)

(** make([]byte, n) *)
Definition make (n : Z) : BNode := repeat Byte.x00 (Z.to_nat n).

(** The body of [nodeSplit2] is empty in the source: it leaves [left]
    and [right] as they are. *)
Definition nodeSplit2 (left right old : BNode) : BNode * BNode :=
  (left, right).

(** [old[:BTREE_PAGE_SIZE]] re-slices within the capacity. *)
Definition nodeSplit3 (old : BNode) : result (Z * (BNode * BNode * BNode)) :=
  sz <- nbytes old ;;
  if sz <=? BTREE_PAGE_SIZE then
    old' <- load old 0 BTREE_PAGE_SIZE ;;
    Ok (1, (old', [], []))
  else
    let left := make (2 * BTREE_PAGE_SIZE) in
    let right := make BTREE_PAGE_SIZE in
    let (left, right) := nodeSplit2 left right old in
    lsz <- nbytes left ;;
    if lsz <=? BTREE_PAGE_SIZE then
      left' <- load left 0 BTREE_PAGE_SIZE ;;
      Ok (2, (left', right, []))
    else
      let leftleft := make BTREE_PAGE_SIZE in
      let middle := make BTREE_PAGE_SIZE in
      let (leftleft, middle) := nodeSplit2 leftleft middle left in
      llsz <- nbytes leftleft ;;
      Assert (llsz <=? BTREE_PAGE_SIZE)
        "left node less than the defined page size" ;;;
      Ok (3, (leftleft, middle, right)).

(** ** Start-up check *)

Definition node1max : Z :=
  HEADER + 8 + 2 + 4 + BTREE_MAX_KEY_SIZE + BTREE_MAX_VAL_SIZE.

Definition init : result unit :=
  Assert (node1max <=? BTREE_PAGE_SIZE)
    "Node is greater than defined page size".

(** ** The records of a node *)

(** What the accessors decode at one index: pointer, key, value. *)
Record record : Type := mkRecord {
  rptr : Z;
  rkey : list byte;
  rval : list byte
}.

Definition getRec (node : BNode) (idx : Z) : result record :=
  p <- getPtr node idx ;;
  k <- getKey node idx ;;
  v <- getVal node idx ;;
  Ok (mkRecord p k v).

Fixpoint getRecs (node : BNode) (todo : list Z) : result (list record) :=
  match todo with
  | [] => Ok []
  | i :: rest =>
      r <- getRec node i ;;
      rs <- getRecs node rest ;;
      Ok (r :: rs)
  end.

(** The record sequence of a node: indices [0 .. nkeys-1]. *)
Definition records (node : BNode) : result (list record) :=
  n <- nkeys node ;;
  getRecs node (indices 0 n).

(** Encoded size of one record: two 16-bit lengths, key, value. *)
Definition rsize (r : record) : Z := 4 + len (rkey r) + len (rval r).

Definition rsizes (rs : list record) : Z :=
  fold_right (fun r acc => rsize r + acc) 0 rs.


(** ** Auxiliary definitions for the proofs *)

(** The buffer that [nodeAppendKV new idx ptr key val] leaves, written as
    its six writes, for a node of [n] keys whose offset of [idx] is
    [off]. *)
Definition appendKV_image (nw : BNode) (n idx off ptr : Z)
    (key val : list byte) : BNode :=
  let pos := 4 + 10 * n + off in
  let nw1 := write nw (4 + 8 * idx) (le_split 8 ptr) in
  let nw2 := write nw1 pos (le_split 2 (u16 (len key))) in
  let nw3 := write nw2 (pos + 2) (le_split 2 (u16 (len val))) in
  let nw4 := write nw3 (pos + 4) key in
  let nw5 := write nw4 (pos + 4 + u16 (len key)) val in
  write nw5 (4 + 8 * n + 2 * idx)
    (le_split 2 (u16 (off + 4 + u16 (len key + len val)))).

(** The bytes of one record: key length, value length, key, value. *)
Definition encode_kv (key val : list byte) : list byte :=
  le_split 2 (len key) ++ le_split 2 (len val) ++ key ++ val.

(** A node of [n] keys under construction, whose first [length rs]
    records have been appended and are [rs]: for each of them the
    pointer slot, the entry of the next offset and the bytes of the
    record are in place, and the records written so far fit the buffer. *)
Definition Built (n : Z) (rs : list record) (node : BNode) : Prop :=
  nkeys node = Ok n /\
  len rs <= n /\
  4 + 10 * n + rsizes rs <= len node /\
  4 + 10 * n + rsizes rs < 2 ^ 16 /\
  forall i r, nth_error rs i = Some r ->
    Uint64_at node (4 + 8 * Z.of_nat i) = Ok (rptr r) /\
    Uint16_at node (4 + 8 * n + 2 * Z.of_nat i) = Ok (rsizes (firstn (S i) rs)) /\
    load node (4 + 10 * n + rsizes (firstn i rs)) (rsize r)
      = Ok (encode_kv (rkey r) (rval r)).

(** The page ids that [tree.new] returns for the children, called on
    them in order, and the store after the calls. *)
Fixpoint alloc_all {Store : Type} (tree : BTree Store) (st : Store)
    (kids : list BNode) : list Z * Store :=
  match kids with
  | [] => ([], st)
  | node :: rest =>
      let (p, st') := new tree node st in
      let (ps, st'') := alloc_all tree st' rest in
      (p :: ps, st'')
  end.

(** The routing records of the children: pointer, first key, no value. *)
Definition routing (ids : list Z) (keys : list (list byte)) : list record :=
  map (fun pk => mkRecord (fst pk) (snd pk) []) (combine ids keys).

(** The record position that a layout without a pointer table in the
    leaves would give: header, offset table, offset of the record. *)
Definition leaf_kvPos_without_pointers : Prop :=
  forall node idx n off,
    btype node = Ok BNODE_LEAF ->
    nkeys node = Ok n ->
    0 <= idx <= n ->
    getOffset node idx = Ok off ->
    kvPos node idx = Ok (HEADER + 2 * n + off).

(** ** Sample nodes *)

Definition bytes_of (l : list Z) : list byte := map byte.of_Z l.

Definition node_of (r : result BNode) : BNode :=
  match r with
  | Ok node => node
  | Fault _ => []
  end.

(** An empty leaf in a buffer of 64 bytes. *)
Definition empty_leaf : BNode := node_of (setHeader (make 64) BNODE_LEAF 0).

(** The leaf with the records (1,"a"), (3,"c"), (5,"b"), built by three
    insertions. *)
Definition leaf_1 : BNode :=
  node_of (leafInsert (make 64) empty_leaf 0 (bytes_of [1]) (bytes_of [97])).
Definition leaf_15 : BNode :=
  node_of (leafInsert (make 64) leaf_1 1 (bytes_of [5]) (bytes_of [98])).
Definition leaf_135 : BNode :=
  node_of (leafInsert (make 64) leaf_15 1 (bytes_of [3]) (bytes_of [99])).

Definition leaf_135_records : list record :=
  [ mkRecord 0 (bytes_of [1]) (bytes_of [97]);
    mkRecord 0 (bytes_of [3]) (bytes_of [99]);
    mkRecord 0 (bytes_of [5]) (bytes_of [98]) ].

(** The keys of [leaf_135], by index. *)
Definition leaf_135_key (i : Z) : list byte :=
  if i =? 1 then bytes_of [3] else if i =? 2 then bytes_of [5] else bytes_of [1].

(** A page store that hands out consecutive page ids. *)
Definition counter_tree : BTree Z :=
  mkBTree 0 (fun _ _ => Fault OutOfRange)
    (fun _ next => (u64 next, next + 1)) (fun _ next => next).

(** A leaf of two records of the maximum key and value size, in a
    buffer of two pages: what an insertion of a maximal record into a
    leaf that holds one already builds. *)
Definition max_key (b : Z) : list byte :=
  repeat (byte.of_Z b) (Z.to_nat BTREE_MAX_KEY_SIZE).
Definition max_val (b : Z) : list byte :=
  repeat (byte.of_Z b) (Z.to_nat BTREE_MAX_VAL_SIZE).
Definition big_leaf_1 : BNode :=
  node_of (leafInsert (make (2 * BTREE_PAGE_SIZE))
             (node_of (setHeader (make BTREE_PAGE_SIZE) BNODE_LEAF 0))
             0 (max_key 1) (max_val 7)).
Definition big_leaf : BNode :=
  node_of (leafInsert (make (2 * BTREE_PAGE_SIZE)) big_leaf_1
             1 (max_key 2) (max_val 8)).

Definition leaf_5 : BNode :=
  node_of (leafInsert (make 64) empty_leaf 0 (bytes_of [5]) (bytes_of [98])).
Definition leaf_3 : BNode :=
  node_of (leafInsert (make 64) empty_leaf 0 (bytes_of [3]) (bytes_of [99])).

(** An internal node with the two children [leaf_1] and [leaf_5],
    allocated as the pages 7 and 8. *)
Definition inner_15 : BNode :=
  match nodeReplaceKidN counter_tree 7 (make 64) leaf_1 0 [leaf_1; leaf_5] with
  | Ok (node, _) => node
  | Fault _ => []
  end.

Definition inner_15_records : list record :=
  [ mkRecord 7 (bytes_of [1]) []; mkRecord 8 (bytes_of [5]) [] ].

(** Zeroed buffers of 64 bytes with the header of a leaf of one key and
    of two keys: nodes under construction, before their first record. *)
Definition fresh_leaf_1 : BNode := node_of (setHeader (make 64) BNODE_LEAF 1).
Definition fresh_leaf_2 : BNode := node_of (setHeader (make 64) BNODE_LEAF 2).

(** A key of 65537 bytes and a value of 65538 bytes. *)
Definition long_key : list byte := repeat (byte.of_Z 1) (Z.to_nat 65537).
Definition long_val : list byte := repeat (byte.of_Z 2) (Z.to_nat 65538).

(** ** More sample nodes *)

(** A leaf whose keys are not in order: 1, 5, 3. *)
Definition leaf_153 : BNode :=
  node_of (leafInsert (make 64) leaf_15 2 (bytes_of [3]) (bytes_of [99])).

Definition leaf_153_key (i : Z) : list byte :=
  if i =? 1 then bytes_of [5] else if i =? 2 then bytes_of [3] else bytes_of [1].

(** A node of two keys under construction, with its first record. *)
Definition half_built : BNode :=
  node_of (nodeAppendKV fresh_leaf_2 0 0 (bytes_of [1]) (bytes_of [97; 98])).

(** A value of 100 bytes. *)
Definition val_100 : list byte := repeat (byte.of_Z 9) 100.
(** * Properties *)

(** ** Arithmetic of the fixed-width integers *)

Lemma u16_small z : 0 <= z < 2 ^ 16 -> u16 z = z.
Proof. intros H. unfold u16. apply Z.mod_small. exact H. Qed.

Lemma u16_range z : 0 <= u16 z < 2 ^ 16.
Proof. unfold u16. apply Z.mod_pos_bound. reflexivity. Qed.

Lemma len_nonneg {A} (l : list A) : 0 <= len l.
Proof. unfold len. lia. Qed.

Lemma len_app {A} (l k : list A) : len (l ++ k) = len l + len k.
Proof. unfold len. rewrite length_app. lia. Qed.

Lemma len_write (l : list byte) q xs : len (write l q xs) = len l.
Proof. unfold len, write. rewrite List.upds_length. reflexivity. Qed.

Lemma len_le_split n v : len (le_split n v) = Z.of_nat n.
Proof. unfold len. rewrite length_le_split. reflexivity. Qed.

(** ** Reading a buffer after a write *)

Lemma nth_error_upds (l xs : list byte) (q i : nat) :
  nth_error (List.upds l q xs) i =
  if ((q <=? i) && (i <? q + length xs) && (i <? length l))%nat
  then nth_error xs (i - q) else nth_error l i.
Proof.
  unfold List.upds.
  rewrite !nth_error_app, !length_firstn, !nth_error_firstn, nth_error_skipn.
  destruct (Nat.leb_spec q i); destruct (Nat.ltb_spec i (q + length xs));
    destruct (Nat.ltb_spec i (length l)); cbn [andb];
    repeat match goal with
           | |- context [(?a <? ?b)%nat] => destruct (Nat.ltb_spec a b)
           end; try lia;
    first [ reflexivity
          | f_equal; lia
          | repeat match goal with
                   | |- context [nth_error ?k ?n] =>
                       rewrite (proj2 (nth_error_None k n)) by lia
                   end; reflexivity ].
Qed.

Lemma load_ok node pos n :
  0 <= pos -> 0 <= n -> pos + n <= len node ->
  load node pos n = Ok (firstn (Z.to_nat n) (skipn (Z.to_nat pos) node)).
Proof.
  intros Hp Hn Hl. unfold load.
  destruct (Z.leb_spec 0 pos); try lia.
  destruct (Z.leb_spec 0 n); try lia.
  destruct (Z.leb_spec (pos + n) (len node)); try lia.
  reflexivity.
Qed.

Lemma load_inv node pos n bs :
  load node pos n = Ok bs ->
  0 <= pos /\ 0 <= n /\ pos + n <= len node /\ len bs = n /\
  bs = firstn (Z.to_nat n) (skipn (Z.to_nat pos) node).
Proof.
  unfold load.
  destruct (Z.leb_spec 0 pos); cbn [andb]; try discriminate.
  destruct (Z.leb_spec 0 n); cbn [andb]; try discriminate.
  destruct (Z.leb_spec (pos + n) (len node)); try discriminate.
  intros E. injection E as <-.
  repeat split; try assumption.
  unfold len in *. rewrite length_firstn, length_skipn. lia.
Qed.

(** A read that does not overlap a write sees the old bytes. *)
Lemma load_write_frame node q src p n :
  0 <= q -> p + n <= q \/ q + len src <= p ->
  load (write node q src) p n = load node p n.
Proof.
  intros Hq Hd. unfold load. rewrite len_write.
  destruct ((0 <=? p) && (0 <=? n) && (p + n <=? len node)) eqn:E;
    [| reflexivity].
  apply andb_prop in E as [E E3]. apply andb_prop in E as [E1 E2].
  apply Z.leb_le in E1, E2, E3.
  f_equal. apply nth_error_ext. intros i.
  rewrite !nth_error_firstn, !nth_error_skipn.
  destruct (Nat.ltb_spec i (Z.to_nat n)); [| reflexivity].
  unfold write. rewrite nth_error_upds. unfold len in *.
  destruct (Nat.leb_spec (Z.to_nat q) (Z.to_nat p + i));
    destruct (Nat.ltb_spec (Z.to_nat p + i) (Z.to_nat q + length src));
    cbn [andb]; try reflexivity; lia.
Qed.

(** A read of exactly the bytes just written, when they fit. *)
Lemma load_write_same node q src :
  0 <= q -> q + len src <= len node ->
  load (write node q src) q (len src) = Ok src.
Proof.
  intros Hq Hl. rewrite load_ok; rewrite ?len_write; try lia.
  2: apply len_nonneg.
  f_equal. apply nth_error_ext. intros i.
  rewrite nth_error_firstn, nth_error_skipn.
  unfold write. rewrite nth_error_upds. unfold len in *.
  rewrite Nat2Z.id.
  destruct (Nat.ltb_spec i (length src)).
  - destruct (Nat.leb_spec (Z.to_nat q) (Z.to_nat q + i)); try lia.
    destruct (Nat.ltb_spec (Z.to_nat q + i) (Z.to_nat q + length src)); try lia.
    destruct (Nat.ltb_spec (Z.to_nat q + i) (length node)); try lia.
    cbn [andb]. f_equal. lia.
  - symmetry. apply nth_error_None. lia.
Qed.

Lemma load_write_same_len node q src m :
  0 <= q -> m = len src -> q + m <= len node ->
  load (write node q src) q m = Ok src.
Proof. intros Hq -> Hl. apply load_write_same; assumption. Qed.

(** Two adjacent reads make one read. *)
Lemma load_app node p a b x y :
  load node p a = Ok x -> load node (p + a) b = Ok y ->
  load node p (a + b) = Ok (x ++ y).
Proof.
  intros Hx Hy.
  apply load_inv in Hx as (Hp & Ha & Hl & _ & ->).
  apply load_inv in Hy as (_ & Hb & Hl' & _ & ->).
  rewrite load_ok by lia. f_equal.
  apply nth_error_ext. intros i.
  rewrite nth_error_app, !nth_error_firstn, !nth_error_skipn.
  rewrite length_firstn, length_skipn. unfold len in *.
  destruct (Nat.ltb_spec i (Z.to_nat (a + b)));
    destruct (Nat.ltb_spec i (Nat.min (Z.to_nat a) (length node - Z.to_nat p)));
    rewrite ?nth_error_firstn, ?nth_error_skipn;
    repeat match goal with
           | |- context [(?u <? ?v)%nat] => destruct (Nat.ltb_spec u v)
           end; try lia; try reflexivity.
  f_equal. lia.
Qed.

(** One read is two adjacent reads. *)
Lemma load_split node p a b z :
  0 <= a -> 0 <= b -> load node p (a + b) = Ok z ->
  load node p a = Ok (firstn (Z.to_nat a) z) /\
  load node (p + a) b = Ok (skipn (Z.to_nat a) z).
Proof.
  intros Ha Hb Hz.
  apply load_inv in Hz as (Hp & _ & Hl & _ & ->).
  rewrite !load_ok by lia. split; f_equal.
  - rewrite firstn_firstn. f_equal. lia.
  - apply nth_error_ext. intros i.
    rewrite nth_error_skipn, !nth_error_firstn, !nth_error_skipn.
    destruct (Nat.ltb_spec i (Z.to_nat b));
      destruct (Nat.ltb_spec (Z.to_nat a + i) (Z.to_nat (a + b))); try lia.
    + f_equal. lia.
    + reflexivity.
Qed.

Lemma store_ok node q src :
  0 <= q -> q + len src <= len node -> store node q src = Ok (write node q src).
Proof.
  intros Hq Hl. unfold store.
  destruct (Z.leb_spec 0 q); try lia.
  destruct (Z.leb_spec (q + len src) (len node)); try lia.
  reflexivity.
Qed.

Lemma copy_at_ok node q src :
  0 <= q <= len node -> copy_at node q src = Ok (write node q src).
Proof.
  intros Hq. unfold copy_at.
  destruct (Z.leb_spec 0 q); try lia.
  destruct (Z.leb_spec q (len node)); try lia.
  reflexivity.
Qed.

Lemma Uint16_at_write_frame node q src p :
  0 <= q -> p + 2 <= q \/ q + len src <= p ->
  Uint16_at (write node q src) p = Uint16_at node p.
Proof. intros. unfold Uint16_at. rewrite load_write_frame by assumption. reflexivity. Qed.

Lemma Uint64_at_write_frame node q src p :
  0 <= q -> p + 8 <= q \/ q + len src <= p ->
  Uint64_at (write node q src) p = Uint64_at node p.
Proof. intros. unfold Uint64_at. rewrite load_write_frame by assumption. reflexivity. Qed.

Lemma le_combine_split16 v : le_combine (le_split 2 v) = u16 v.
Proof. rewrite le_combine_split. reflexivity. Qed.

Lemma le_combine_split64 v : le_combine (le_split 8 v) = u64 v.
Proof. rewrite le_combine_split. reflexivity. Qed.

(** Reading back a 16-bit field. *)
Lemma Uint16_at_write_same node q v :
  0 <= q -> q + 2 <= len node ->
  Uint16_at (write node q (le_split 2 v)) q = Ok (u16 v).
Proof.
  intros Hq Hl. unfold Uint16_at.
  change 2 with (len (le_split 2 v)) at 1.
  rewrite load_write_same by (rewrite ?len_le_split; lia).
  cbn [bind]. rewrite le_combine_split16. reflexivity.
Qed.

(** Reading back a 64-bit field. *)
Lemma Uint64_at_write_same node q v :
  0 <= q -> q + 8 <= len node ->
  Uint64_at (write node q (le_split 8 v)) q = Ok (u64 v).
Proof.
  intros Hq Hl. unfold Uint64_at.
  change 8 with (len (le_split 8 v)) at 1.
  rewrite load_write_same by (rewrite ?len_le_split; lia).
  cbn [bind]. rewrite le_combine_split64. reflexivity.
Qed.

Lemma Uint16_at_inv node p v :
  Uint16_at node p = Ok v -> 0 <= p /\ p + 2 <= len node /\ 0 <= v < 2 ^ 16.
Proof.
  unfold Uint16_at. destruct (load node p 2) as [bs|] eqn:E; cbn [bind];
    [| discriminate].
  intros H. injection H as <-.
  apply load_inv in E as (Hp & _ & Hl & Hlen & _).
  pose proof (le_combine_bound bs) as Hb. unfold len in Hlen.
  replace (8 * Z.of_nat (length bs)) with 16 in Hb by lia.
  lia.
Qed.

Lemma Uint64_at_inv node p v :
  Uint64_at node p = Ok v -> 0 <= p /\ p + 8 <= len node /\ 0 <= v < 2 ^ 64.
Proof.
  unfold Uint64_at. destruct (load node p 8) as [bs|] eqn:E; cbn [bind];
    [| discriminate].
  intros H. injection H as <-.
  apply load_inv in E as (Hp & _ & Hl & Hlen & _).
  pose proof (le_combine_bound bs) as Hb. unfold len in Hlen.
  replace (8 * Z.of_nat (length bs)) with 64 in Hb by lia.
  lia.
Qed.

(** ** The accessors as reads at explicit positions *)

Ltac ztrue :=
  repeat match goal with
         | |- context [?a <? ?b] => rewrite (proj2 (Z.ltb_lt a b)) by lia
         | |- context [?a <=? ?b] => rewrite (proj2 (Z.leb_le a b)) by lia
         | |- context [?a =? ?b] =>
             first [ rewrite (proj2 (Z.eqb_eq a b)) by lia
                   | rewrite (proj2 (Z.eqb_neq a b)) by lia ]
         end.

Lemma nkeys_inv node n : nkeys node = Ok n -> 4 <= len node /\ 0 <= n < 2 ^ 16.
Proof. intros H. apply Uint16_at_inv in H. lia. Qed.

Lemma nkeys_write node q src :
  4 <= q -> nkeys (write node q src) = nkeys node.
Proof. intros. unfold nkeys. apply Uint16_at_write_frame; lia. Qed.

Lemma btype_write node q src :
  2 <= q -> btype (write node q src) = btype node.
Proof. intros. unfold btype. apply Uint16_at_write_frame; lia. Qed.

Lemma getPtr_eq node n idx :
  nkeys node = Ok n -> 0 <= idx < n -> 4 + 8 * n <= 2 ^ 16 ->
  getPtr node idx = Uint64_at node (4 + 8 * idx).
Proof.
  intros Hn Hi Hb. unfold getPtr, HEADER. rewrite Hn. cbn [bind].
  ztrue. cbn [Assert bind]. rewrite u16_small by lia. reflexivity.
Qed.

Lemma getOffset_eq node n idx :
  nkeys node = Ok n -> 1 <= idx <= n -> 4 + 10 * n <= 2 ^ 16 ->
  getOffset node idx = Uint16_at node (4 + 8 * n + 2 * (idx - 1)).
Proof.
  intros Hn Hi Hb. unfold getOffset, offsetPos, HEADER. ztrue.
  rewrite Hn. cbn [bind]. ztrue. cbn [andb Assert bind].
  rewrite u16_small by lia. reflexivity.
Qed.

Lemma getOffset_inv node idx off :
  getOffset node idx = Ok off -> 0 <= off < 2 ^ 16.
Proof.
  unfold getOffset. destruct (idx =? 0).
  - intros H. injection H as <-. lia.
  - destruct (offsetPos node idx) as [p|]; cbn [bind]; [| discriminate].
    intros H. apply Uint16_at_inv in H. lia.
Qed.

Lemma kvPos_eq node n idx off :
  nkeys node = Ok n -> idx <= n -> getOffset node idx = Ok off ->
  4 + 10 * n + off < 2 ^ 16 ->
  kvPos node idx = Ok (4 + 10 * n + off).
Proof.
  intros Hn Hi Ho Hb. pose proof (nkeys_inv _ _ Hn).
  pose proof (getOffset_inv _ _ _ Ho).
  unfold kvPos, HEADER. rewrite Hn. cbn [bind]. ztrue. cbn [Assert bind].
  rewrite Ho. cbn [bind]. rewrite u16_small by lia. f_equal. lia.
Qed.

(** A write outside the entry of [idx] in the offset table (and outside
    the header) does not change [getOffset idx]. *)
Lemma getOffset_write node n idx q src :
  nkeys node = Ok n -> 0 <= idx <= n -> 4 + 10 * n <= 2 ^ 16 -> 4 <= q ->
  idx = 0 \/ 4 + 8 * n + 2 * idx <= q \/ q + len src <= 4 + 8 * n + 2 * (idx - 1) ->
  getOffset (write node q src) idx = getOffset node idx.
Proof.
  intros Hn Hi Hb Hq Hd.
  destruct (Z.eq_dec idx 0) as [-> | Hnz]; [reflexivity |].
  rewrite (getOffset_eq (write node q src) n), (getOffset_eq node n);
    try lia; try assumption.
  - apply Uint16_at_write_frame; lia.
  - rewrite nkeys_write by lia. assumption.
Qed.

(** ** [nodeAppendKV], run symbolically *)

Lemma nodeAppendKV_run nw idx ptr key val n off :
  nkeys nw = Ok n -> 0 <= idx < n -> getOffset nw idx = Ok off ->
  4 + 10 * n + off + 4 + u16 (len key) <= len nw ->
  4 + 10 * n + off + 4 + u16 (len key) < 2 ^ 16 ->
  nodeAppendKV nw idx ptr key val = Ok (appendKV_image nw n idx off ptr key val).
Proof.
  intros Hn Hi Ho Hl Hb.
  pose proof (getOffset_inv _ _ _ Ho) as Hoff.
  pose proof (u16_range (len key)) as Hk.
  unfold appendKV_image, nodeAppendKV.
  remember (4 + 10 * n + off) as pos eqn:Hpos.
  (* setPtr *)
  unfold setPtr, HEADER. rewrite Hn. cbn [bind]. ztrue. cbn [Assert bind].
  rewrite u16_small by lia. unfold PutUint64_at.
  rewrite store_ok by (rewrite ?len_le_split; lia). cbn [bind].
  set (nw1 := write nw (4 + 8 * idx) (le_split 8 ptr)).
  assert (Hn1 : nkeys nw1 = Ok n) by (unfold nw1; rewrite nkeys_write by lia; exact Hn).
  assert (Ho1 : getOffset nw1 idx = Ok off).
  { unfold nw1. rewrite (getOffset_write nw n); try assumption; try lia.
    rewrite len_le_split. lia. }
  (* kvPos *)
  rewrite (kvPos_eq nw1 n idx off) by (assumption || lia). cbn [bind].
  rewrite <- Hpos. unfold PutUint16_at.
  rewrite Z.add_0_r, (u16_small pos), (u16_small (pos + 2)),
    (u16_small (pos + 4)), (u16_small (pos + 4 + u16 (len key))) by lia.
  rewrite store_ok by (unfold nw1; rewrite ?len_write, ?len_le_split; lia).
  cbn [bind].
  set (nw2 := write nw1 pos _).
  rewrite store_ok by (unfold nw2, nw1; rewrite ?len_write, ?len_le_split; lia).
  cbn [bind].
  set (nw3 := write nw2 (pos + 2) _).
  rewrite copy_at_ok by (unfold nw3, nw2, nw1; rewrite ?len_write; lia).
  cbn [bind].
  set (nw4 := write nw3 (pos + 4) key).
  rewrite copy_at_ok by (unfold nw4, nw3, nw2, nw1; rewrite ?len_write; lia).
  cbn [bind].
  set (nw5 := write nw4 (pos + 4 + u16 (len key)) val).
  assert (Hn2 : nkeys nw2 = Ok n) by (unfold nw2; rewrite nkeys_write by lia; exact Hn1).
  assert (Hn3 : nkeys nw3 = Ok n) by (unfold nw3; rewrite nkeys_write by lia; exact Hn2).
  assert (Hn4 : nkeys nw4 = Ok n) by (unfold nw4; rewrite nkeys_write by lia; exact Hn3).
  assert (Hn5 : nkeys nw5 = Ok n) by (unfold nw5; rewrite nkeys_write by lia; exact Hn4).
  assert (Ho5 : getOffset nw5 idx = Ok off).
  { unfold nw5. rewrite (getOffset_write nw4 n) by (assumption || lia).
    unfold nw4. rewrite (getOffset_write nw3 n) by (assumption || lia).
    unfold nw3. rewrite (getOffset_write nw2 n) by (assumption || lia).
    unfold nw2. rewrite (getOffset_write nw1 n) by (assumption || lia).
    exact Ho1. }
  rewrite Ho5. cbn [bind].
  (* setOffset *)
  unfold setOffset, offsetPos, HEADER. rewrite Hn5. cbn [bind].
  rewrite (u16_small (idx + 1)) by lia. ztrue. cbn [andb Assert bind].
  rewrite (u16_small (4 + 8 * n + 2 * (idx + 1 - 1))) by lia.
  unfold PutUint16_at.
  rewrite store_ok
    by (unfold nw5, nw4, nw3, nw2, nw1; rewrite ?len_write, ?len_le_split; lia).
  f_equal. f_equal. lia.
Qed.

Ltac frame_load :=
  repeat (rewrite load_write_frame by (rewrite ?len_le_split; lia)).

Lemma len_encode_kv key val : len (encode_kv key val) = 4 + len key + len val.
Proof. unfold encode_kv. rewrite !len_app, !len_le_split. lia. Qed.

Section AppendKVImage.
Variables (nw : BNode) (n idx off ptr : Z) (key val : list byte).
Hypothesis Hn : nkeys nw = Ok n.
Hypothesis Hi : 0 <= idx < n.
Hypothesis Ho : 0 <= off.
Hypothesis Hl : 4 + 10 * n + off + 4 + len key + len val <= len nw.
Hypothesis Hb : 4 + 10 * n + off + 4 + len key + len val < 2 ^ 16.

Lemma image_len : len (appendKV_image nw n idx off ptr key val) = len nw.
Proof. unfold appendKV_image. rewrite !len_write. reflexivity. Qed.

Lemma image_nkeys : nkeys (appendKV_image nw n idx off ptr key val) = Ok n.
Proof.
  unfold appendKV_image. pose proof (u16_range (len key)).
  rewrite !nkeys_write by lia. exact Hn.
Qed.

Lemma image_btype : btype (appendKV_image nw n idx off ptr key val) = btype nw.
Proof.
  unfold appendKV_image. pose proof (u16_range (len key)).
  rewrite !btype_write by lia. reflexivity.
Qed.

(** Outside the pointer slot, the record and the offset slot, the
    buffer is unchanged. *)
Lemma image_frame p m :
  (p + m <= 4 + 8 * idx \/ 4 + 8 * idx + 8 <= p) ->
  (p + m <= 4 + 8 * n + 2 * idx \/ 4 + 8 * n + 2 * idx + 2 <= p) ->
  (p + m <= 4 + 10 * n + off \/ 4 + 10 * n + off + 4 + len key + len val <= p) ->
  load (appendKV_image nw n idx off ptr key val) p m = load nw p m.
Proof.
  intros H1 H2 H3. unfold appendKV_image in *.
  pose proof (len_nonneg key). pose proof (len_nonneg val).
  rewrite (u16_small (len key)) by lia.
  frame_load. reflexivity.
Qed.

Lemma image_record :
  load (appendKV_image nw n idx off ptr key val) (4 + 10 * n + off)
    (4 + len key + len val) = Ok (encode_kv key val).
Proof.
  unfold appendKV_image, encode_kv.
  pose proof (len_nonneg key). pose proof (len_nonneg val).
  rewrite (u16_small (len key)), (u16_small (len val)) by lia.
  replace (4 + len key + len val) with (2 + (2 + (len key + len val))) by lia.
  apply load_app; [| apply load_app; [| apply load_app ] ].
  - frame_load.
    apply load_write_same_len; rewrite ?len_write, ?len_le_split; lia.
  - frame_load.
    apply load_write_same_len; rewrite ?len_write, ?len_le_split; lia.
  - frame_load.
    replace (4 + 10 * n + off + 2 + 2) with (4 + 10 * n + off + 4) by lia.
    apply load_write_same_len; rewrite ?len_write; lia.
  - frame_load.
    replace (4 + 10 * n + off + 2 + 2 + len key)
      with (4 + 10 * n + off + 4 + len key) by lia.
    apply load_write_same_len; rewrite ?len_write; lia.
Qed.

Lemma image_offset :
  Uint16_at (appendKV_image nw n idx off ptr key val) (4 + 8 * n + 2 * idx) = Ok (off + 4 + len key + len val).
Proof.
  unfold appendKV_image.
  pose proof (len_nonneg key). pose proof (len_nonneg val).
  rewrite Uint16_at_write_same by (rewrite ?len_write; lia).
  rewrite (u16_small (len key + len val)) by lia.
  rewrite (u16_small (off + 4 + (len key + len val))) by lia.
  rewrite u16_small by lia. f_equal. lia.
Qed.

Lemma image_ptr : Uint64_at (appendKV_image nw n idx off ptr key val) (4 + 8 * idx) = Ok (u64 ptr).
Proof.
  unfold appendKV_image, Uint64_at.
  pose proof (len_nonneg key). pose proof (len_nonneg val).
  rewrite (u16_small (len key)) by lia.
  frame_load.
  rewrite load_write_same_len by (rewrite ?len_le_split; lia).
  cbn [bind]. rewrite le_combine_split64. reflexivity.
Qed.
End AppendKVImage.

(** Whatever the lengths of [key] and [val], a read that ends before the
    record and avoids the pointer slot and the offset slot is unchanged. *)
Lemma image_frame_below nw n idx off ptr key val p m :
  0 <= idx < n -> 0 <= off ->
  (p + m <= 4 + 8 * idx \/ 4 + 8 * idx + 8 <= p) ->
  (p + m <= 4 + 8 * n + 2 * idx \/ 4 + 8 * n + 2 * idx + 2 <= p) ->
  p + m <= 4 + 10 * n + off ->
  load (appendKV_image nw n idx off ptr key val) p m = load nw p m.
Proof.
  intros Hi Ho H1 H2 H3. unfold appendKV_image.
  pose proof (u16_range (len key)).
  frame_load. reflexivity.
Qed.

Lemma image_getOffset nw n idx off ptr key val i :
  nkeys nw = Ok n -> 0 <= idx < n -> 0 <= off -> 4 + 10 * n <= 2 ^ 16 ->
  0 <= i <= idx ->
  getOffset (appendKV_image nw n idx off ptr key val) i = getOffset nw i.
Proof.
  intros Hn Hi Ho Hb Hii.
  destruct (Z.eq_dec i 0) as [-> | Hnz]; [reflexivity |].
  assert (Hn' : nkeys (appendKV_image nw n idx off ptr key val) = Ok n).
  { unfold appendKV_image. pose proof (u16_range (len key)).
    rewrite !nkeys_write by lia. exact Hn. }
  rewrite (getOffset_eq _ n), (getOffset_eq nw n) by (assumption || lia).
  unfold Uint16_at. rewrite image_frame_below by lia. reflexivity.
Qed.

(** ** Index ranges and the record sequence *)

Lemma indices_nil lo hi : hi <= lo -> indices lo hi = [].
Proof.
  intros H. unfold indices. replace (Z.to_nat (hi - lo)) with 0%nat by lia.
  reflexivity.
Qed.

Lemma indices_cons lo hi : lo < hi -> indices lo hi = lo :: indices (lo + 1) hi.
Proof.
  intros H. unfold indices.
  replace (Z.to_nat (hi - lo)) with (S (Z.to_nat (hi - (lo + 1)))) by lia.
  cbn [seq map]. f_equal; [lia |].
  rewrite <- seq_shift, map_map. apply map_ext. intros k. lia.
Qed.

Lemma getRecs_indices node :
  forall rs a,
    getRecs node (indices a (a + len rs)) = Ok rs <->
    (forall i r, nth_error rs i = Some r -> getRec node (a + Z.of_nat i) = Ok r).
Proof.
  induction rs as [| r0 rs IH]; intros a.
  - rewrite indices_nil by (unfold len; cbn; lia). cbn.
    split; [intros _ [|i] r; discriminate | reflexivity].
  - rewrite indices_cons by (unfold len; cbn [length]; lia).
    replace (a + len (r0 :: rs)) with ((a + 1) + len rs)
      by (unfold len; cbn [length]; lia).
    cbn [getRecs]. split.
    + destruct (getRec node a) as [r|] eqn:Er; cbn [bind]; [| discriminate].
      destruct (getRecs node (indices (a + 1) (a + 1 + len rs))) as [rs'|] eqn:Ers;
        cbn [bind]; [| discriminate].
      intros E. injection E as -> ->.
      intros [|i] r; cbn [nth_error].
      * intros E. injection E as <-. rewrite Z.add_0_r. exact Er.
      * intros E. apply (proj1 (IH (a + 1)) Ers) in E.
        rewrite <- E. f_equal. lia.
    + intros H.
      pose proof (H 0%nat r0 eq_refl) as H0.
      change (Z.of_nat 0) with 0 in H0. rewrite Z.add_0_r in H0.
      rewrite H0. cbn [bind].
      rewrite (proj2 (IH (a + 1))); [reflexivity |].
      intros i r E. rewrite <- (H (S i) r E). f_equal. lia.
Qed.

Lemma getRecs_length node : forall todo rs,
  getRecs node todo = Ok rs -> length rs = length todo.
Proof.
  induction todo as [| i todo IH]; intros rs; cbn [getRecs].
  - intros E. injection E as <-. reflexivity.
  - destruct (getRec node i); cbn [bind]; [| discriminate].
    destruct (getRecs node todo) as [rs'|]; cbn [bind]; [| discriminate].
    intros E. injection E as <-. cbn [length]. f_equal. apply IH. reflexivity.
Qed.

Lemma length_indices lo hi : length (indices lo hi) = Z.to_nat (hi - lo).
Proof. unfold indices. rewrite length_map, length_seq. reflexivity. Qed.

(** The record sequence, index by index. *)
Lemma records_iff node rs :
  records node = Ok rs <->
  nkeys node = Ok (len rs) /\
  (forall i r, nth_error rs i = Some r -> getRec node (Z.of_nat i) = Ok r).
Proof.
  unfold records. split.
  - destruct (nkeys node) as [n|] eqn:En; cbn [bind]; [| discriminate].
    intros H. pose proof (nkeys_inv _ _ En) as [_ Hn].
    pose proof (getRecs_length _ _ _ H) as Hlen.
    rewrite length_indices in Hlen.
    assert (n = len rs) as -> by (unfold len; lia).
    split; [reflexivity |].
    apply (proj1 (getRecs_indices node rs 0)). exact H.
  - intros [Hn H]. rewrite Hn. cbn [bind].
    apply (proj2 (getRecs_indices node rs 0)). exact H.
Qed.

(** ** Sizes of record sequences *)

Lemma rsize_pos r : 4 <= rsize r.
Proof. unfold rsize. pose proof (len_nonneg (rkey r)). pose proof (len_nonneg (rval r)). lia. Qed.

Lemma rsizes_nonneg rs : 0 <= rsizes rs.
Proof.
  induction rs as [| r rs IH]; cbn [rsizes fold_right]; [lia |].
  pose proof (rsize_pos r). fold (rsizes rs). lia.
Qed.

Lemma rsizes_app rs1 rs2 : rsizes (rs1 ++ rs2) = rsizes rs1 + rsizes rs2.
Proof.
  induction rs1 as [| r rs1 IH]; cbn [rsizes fold_right app]; [reflexivity |].
  fold (rsizes (rs1 ++ rs2)). fold (rsizes rs1). lia.
Qed.

Lemma rsizes_cons r rs : rsizes (r :: rs) = rsize r + rsizes rs.
Proof. reflexivity. Qed.

Lemma rsizes_firstn_skipn k rs :
  rsizes rs = rsizes (firstn k rs) + rsizes (skipn k rs).
Proof. rewrite <- rsizes_app, firstn_skipn. reflexivity. Qed.

Lemma rsizes_firstn_le k rs : rsizes (firstn k rs) <= rsizes rs.
Proof.
  rewrite (rsizes_firstn_skipn k rs). pose proof (rsizes_nonneg (skipn k rs)). lia.
Qed.

Lemma firstn_S_nth {A} (l : list A) i x :
  nth_error l i = Some x -> firstn (S i) l = firstn i l ++ [x].
Proof.
  revert i. induction l as [| a l IH]; intros [|i]; cbn; try discriminate.
  - intros E. injection E as ->. reflexivity.
  - intros E. f_equal. apply IH. exact E.
Qed.

Lemma rsizes_firstn_S rs i r :
  nth_error rs i = Some r ->
  rsizes (firstn (S i) rs) = rsizes (firstn i rs) + rsize r.
Proof.
  intros E. rewrite (firstn_S_nth _ _ _ E), rsizes_app.
  cbn [rsizes fold_right]. lia.
Qed.

Lemma len_length_lt {A} (l : list A) i x :
  nth_error l i = Some x -> Z.of_nat i < len l.
Proof.
  intros E. assert (nth_error l i <> None) as H by congruence.
  apply nth_error_Some in H. unfold len. lia.
Qed.

(** ** Decoding a node under construction *)

Lemma to_nat_len {A} (l : list A) : Z.to_nat (len l) = length l.
Proof. unfold len. apply Nat2Z.id. Qed.

Lemma load_split_app node p x y :
  load node p (len x + len y) = Ok (x ++ y) ->
  load node p (len x) = Ok x /\ load node (p + len x) (len y) = Ok y.
Proof.
  intros H. apply load_split in H; try apply len_nonneg.
  rewrite !to_nat_len in H.
  rewrite firstn_app, skipn_app, Nat.sub_diag, firstn_all, skipn_all in H.
  cbn [firstn skipn app] in H. rewrite app_nil_r in H. exact H.
Qed.

Lemma Built_offset n rs node i :
  Built n rs node -> (i <= length rs)%nat ->
  getOffset node (Z.of_nat i) = Ok (rsizes (firstn i rs)).
Proof.
  intros (Hn & Hlen & Hl & Hb & H) Hi.
  pose proof (rsizes_nonneg rs).
  destruct i as [| i]; [reflexivity |].
  destruct (nth_error rs i) as [r|] eqn:E.
  2: { apply nth_error_None in E. lia. }
  unfold len in Hlen.
  rewrite (getOffset_eq node n) by (assumption || lia).
  destruct (H i r E) as (_ & Ho & _).
  rewrite <- Ho. f_equal. lia.
Qed.

Lemma Built_getRec n rs node i r :
  Built n rs node -> nth_error rs i = Some r ->
  getRec node (Z.of_nat i) = Ok r.
Proof.
  intros HB E. pose proof HB as (Hn & Hlen & Hl & Hb & H).
  pose proof (len_length_lt _ _ _ E) as Hi.
  pose proof (rsizes_nonneg rs). pose proof (rsizes_nonneg (firstn i rs)).
  pose proof (rsizes_firstn_le (S i) rs) as HS.
  rewrite (rsizes_firstn_S _ _ _ E) in HS.
  pose proof (len_nonneg (rkey r)). pose proof (len_nonneg (rval r)).
  destruct (H i r E) as (Hp & _ & Hr).
  assert (Hoff : getOffset node (Z.of_nat i) = Ok (rsizes (firstn i rs))).
  { apply (Built_offset n); [assumption |]. unfold len in Hi. lia. }
  unfold rsize, encode_kv in *.
  replace (4 + len (rkey r) + len (rval r))
    with (len (le_split 2 (len (rkey r))) +
          len (le_split 2 (len (rval r)) ++ rkey r ++ rval r)) in Hr
    by (rewrite !len_app, !len_le_split; lia).
  apply load_split_app in Hr as [Hk Hr].
  rewrite len_app in Hr. apply load_split_app in Hr as [Hv Hr].
  rewrite len_app in Hr. apply load_split_app in Hr as [Hkey Hval].
  rewrite !len_le_split in *.
  set (pos := 4 + 10 * n + rsizes (firstn i rs)) in *.
  assert (Hkv : kvPos node (Z.of_nat i) = Ok pos)
    by (apply kvPos_eq; (assumption || lia)).
  assert (Hklen : Uint16_at node pos = Ok (len (rkey r))).
  { unfold Uint16_at. change (Z.of_nat 2) with 2 in Hk. rewrite Hk. cbn [bind].
    rewrite le_combine_split16, u16_small by lia. reflexivity. }
  assert (Hvlen : Uint16_at node (pos + 2) = Ok (len (rval r))).
  { unfold Uint16_at. change (Z.of_nat 2) with 2 in Hv. rewrite Hv. cbn [bind].
    rewrite le_combine_split16, u16_small by lia. reflexivity. }
  unfold getRec.
  rewrite (getPtr_eq node n) by (assumption || lia). rewrite Hp. cbn [bind].
  unfold getKey, getVal. rewrite Hn. cbn [bind]. ztrue. cbn [Assert bind].
  rewrite Hkv. cbn [bind]. rewrite Hklen. cbn [bind].
  rewrite (u16_small (pos + 4)), (u16_small (pos + 2)),
    (u16_small (pos + 4 + len (rkey r))) by lia.
  change (Z.of_nat 2) with 2 in *.
  replace (pos + 2 + 2) with (pos + 4) in * by lia.
  rewrite Hkey. cbn [bind]. rewrite Hvlen. cbn [bind]. rewrite Hval. cbn [bind].
  destruct r; reflexivity.
Qed.

(** ** One more record *)

Lemma firstn_app_le {A} (l k : list A) i :
  (i <= length l)%nat -> firstn i (l ++ k) = firstn i l.
Proof.
  intros H. rewrite firstn_app. replace (i - length l)%nat with 0%nat by lia.
  cbn [firstn]. apply app_nil_r.
Qed.

Lemma Built_step n rs node r :
  Built n rs node -> len rs < n -> 0 <= rptr r < 2 ^ 64 ->
  4 + 10 * n + rsizes (rs ++ [r]) <= len node ->
  4 + 10 * n + rsizes (rs ++ [r]) < 2 ^ 16 ->
  exists node',
    nodeAppendKV node (len rs) (rptr r) (rkey r) (rval r) = Ok node' /\
    Built n (rs ++ [r]) node' /\
    btype node' = btype node /\ len node' = len node.
Proof.
  intros HB Hlt Hp Hl Hb. pose proof HB as (Hn & Hlen & _ & _ & H).
  rewrite rsizes_app in Hl, Hb. cbn [rsizes fold_right] in Hl, Hb.
  unfold rsize in Hl, Hb.
  pose proof (rsizes_nonneg rs) as Hs0.
  pose proof (len_nonneg (rkey r)) as Hk0. pose proof (len_nonneg (rval r)) as Hv0.
  pose proof (len_nonneg rs) as Hr0.
  assert (Hoff : getOffset node (len rs) = Ok (rsizes rs)).
  { unfold len. rewrite (Built_offset n rs node (length rs) HB) by lia.
    rewrite firstn_all. reflexivity. }
  eexists. split.
  { apply (nodeAppendKV_run node (len rs) (rptr r) (rkey r) (rval r) n (rsizes rs));
      try assumption; rewrite ?u16_small; lia. }
  split; [| split].
  - unfold Built. split; [| split; [| split; [| split]]].
    + apply image_nkeys; (assumption || lia).
    + rewrite len_app. unfold len at 2. cbn [length]. lia.
    + rewrite image_len, rsizes_app. cbn [rsizes fold_right]. unfold rsize. lia.
    + rewrite rsizes_app. cbn [rsizes fold_right]. unfold rsize. lia.
    + intros i r' E.
      destruct (Nat.lt_ge_cases i (length rs)) as [Hi | Hi].
      * rewrite nth_error_app1 in E by assumption.
        rewrite !firstn_app_le by lia.
        destruct (H i r' E) as (Hp' & Ho' & Hr').
        pose proof (rsizes_firstn_le (S i) rs) as HS.
        rewrite (rsizes_firstn_S _ _ _ E) in HS.
        pose proof (rsizes_nonneg (firstn i rs)).
        pose proof (rsize_pos r').
        pose proof (len_length_lt _ _ _ E).
        unfold Uint64_at, Uint16_at.
        rewrite !image_frame; try assumption; try lia.
        fold (Uint64_at node (4 + 8 * Z.of_nat i)).
        fold (Uint16_at node (4 + 8 * n + 2 * Z.of_nat i)).
        auto.
      * rewrite nth_error_app2 in E by assumption.
        destruct (i - length rs)%nat as [| k] eqn:Ek; cbn [nth_error] in E.
        2: { destruct k; discriminate. }
        injection E as <-.
        assert (i = length rs) as -> by lia.
        rewrite (firstn_app_le rs [r] (length rs)) by lia. rewrite firstn_all.
        rewrite (firstn_all2 (n := S (length rs)) (rs ++ [r]))
          by (rewrite length_app; cbn [length]; lia).
        rewrite rsizes_app. cbn [rsizes fold_right].
        fold (len rs). unfold rsize.
        split; [| split].
        -- rewrite image_ptr; try assumption; try lia.
           f_equal. unfold u64. apply Z.mod_small. lia.
        -- rewrite image_offset; try assumption; try lia. f_equal. lia.
        -- apply image_record; try assumption; lia.
  - rewrite image_btype; (reflexivity || assumption || lia).
  - apply image_len.
Qed.

(** ** What a decoded record satisfies *)

Lemma getRec_inv node i r :
  getRec node i = Ok r ->
  getPtr node i = Ok (rptr r) /\ getKey node i = Ok (rkey r) /\
  getVal node i = Ok (rval r).
Proof.
  unfold getRec.
  destruct (getPtr node i); cbn [bind]; [| discriminate].
  destruct (getKey node i); cbn [bind]; [| discriminate].
  destruct (getVal node i); cbn [bind]; [| discriminate].
  intros E. injection E as <-. auto.
Qed.

Lemma getPtr_range node i p : getPtr node i = Ok p -> 0 <= p < 2 ^ 64.
Proof.
  unfold getPtr. destruct (nkeys node); cbn [bind]; [| discriminate].
  destruct (Assert _ _); cbn [bind]; [| discriminate].
  intros H. apply Uint64_at_inv in H. lia.
Qed.

(** ** A fresh header *)

Lemma setHeader_Built nw bt n :
  0 <= n -> 4 + 10 * n <= len nw -> 4 + 10 * n < 2 ^ 16 ->
  exists nw1,
    setHeader nw bt n = Ok nw1 /\ Built n [] nw1 /\
    btype nw1 = Ok (u16 bt) /\ len nw1 = len nw.
Proof.
  intros Hn Hl Hb. unfold setHeader, PutUint16_at.
  rewrite store_ok by (rewrite ?len_le_split; lia). cbn [bind].
  rewrite store_ok by (rewrite ?len_write, ?len_le_split; lia).
  eexists. split; [reflexivity |]. split; [| split].
  - unfold Built. cbn [rsizes fold_right]. rewrite !len_write.
    split; [| split; [| split; [| split]]]; try lia.
    + unfold nkeys. rewrite Uint16_at_write_same by (rewrite ?len_write; lia).
      rewrite u16_small by lia. reflexivity.
    + unfold len. cbn [length]. lia.
    + intros [|i] r; discriminate.
  - unfold btype. rewrite Uint16_at_write_frame by (rewrite ?len_le_split; lia).
    apply Uint16_at_write_same; lia.
  - rewrite !len_write. reflexivity.
Qed.

(** ** Appending a range of records *)

Lemma appendRange_loop_Built n old dstNew srcOld :
  forall rs2 k rs nw,
    Built n rs nw ->
    0 <= k -> dstNew + k = len rs -> 0 <= srcOld ->
    srcOld + k + len rs2 <= 2 ^ 16 ->
    (forall j r, nth_error rs2 j = Some r ->
                 getRec old (srcOld + k + Z.of_nat j) = Ok r) ->
    len rs + len rs2 <= n ->
    4 + 10 * n + rsizes (rs ++ rs2) <= len nw ->
    4 + 10 * n + rsizes (rs ++ rs2) < 2 ^ 16 ->
    exists nw',
      appendRange_loop nw old dstNew srcOld (indices k (k + len rs2)) = Ok nw' /\
      Built n (rs ++ rs2) nw' /\ btype nw' = btype nw /\ len nw' = len nw.
Proof.
  induction rs2 as [| r rs2 IH]; intros k rs nw HB Hk Hd Hs Hsk Hsrc Hn Hl Hb.
  - rewrite indices_nil by (unfold len; cbn [length]; lia).
    rewrite app_nil_r. exists nw. auto.
  - assert (Hlen : len (r :: rs2) = 1 + len rs2)
      by (unfold len; cbn [length]; lia).
    pose proof (len_nonneg rs2) as Hr2. pose proof (len_nonneg rs) as Hr0.
    rewrite Hlen in *.
    rewrite indices_cons by lia. cbn [appendRange_loop].
    pose proof (Hsrc 0%nat r eq_refl) as Hr.
    change (Z.of_nat 0) with 0 in Hr. rewrite Z.add_0_r in Hr.
    apply getRec_inv in Hr as (Hp & Hkey & Hval).
    pose proof (getPtr_range _ _ _ Hp) as Hprange.
    pose proof (rsizes_nonneg (rs ++ r :: rs2)) as Hnn.
    rewrite (u16_small (srcOld + k)) by lia.
    rewrite Hp, Hkey, Hval. cbn [bind].
    rewrite (u16_small (dstNew + k)) by lia. rewrite Hd.
    assert (Hsz : rsizes (rs ++ r :: rs2) = rsizes (rs ++ [r]) + rsizes rs2).
    { rewrite !rsizes_app. cbn [rsizes fold_right]. fold (rsizes rs2). lia. }
    pose proof (rsizes_nonneg rs2) as Hnn2.
    destruct (Built_step n rs nw r HB) as (nw1 & Hrun & HB1 & Hbt1 & Hlen1);
      try lia.
    rewrite Hrun. cbn [bind].
    destruct (IH (k + 1) (rs ++ [r]) nw1 HB1) as (nw' & Hloop & HB' & Hbt' & Hlen');
      try lia.
    + rewrite len_app. unfold len at 2. cbn [length]. lia.
    + intros j r' E. rewrite <- (Hsrc (S j) r' E). f_equal. lia.
    + rewrite len_app. unfold len at 2. cbn [length]. lia.
    + rewrite <- app_assoc. cbn [app]. lia.
    + rewrite <- app_assoc. cbn [app]. lia.
    + exists nw'. replace (k + (1 + len rs2)) with (k + 1 + len rs2) by lia.
      rewrite <- app_assoc in HB'. cbn [app] in HB'.
      split; [exact Hloop | split; [exact HB' | split; congruence]].
Qed.

Lemma len_firstn {A} (l : list A) k :
  0 <= k <= len l -> len (firstn (Z.to_nat k) l) = k.
Proof. intros H. unfold len in *. rewrite length_firstn. lia. Qed.

Lemma len_skipn {A} (l : list A) k :
  0 <= k <= len l -> len (skipn (Z.to_nat k) l) = len l - k.
Proof. intros H. unfold len in *. rewrite length_skipn. lia. Qed.

Lemma nodeAppendRange_Built n old rs_old nw rs dstNew srcOld m :
  records old = Ok rs_old -> Built n rs nw ->
  dstNew = len rs -> 0 <= srcOld -> 0 <= m -> srcOld + m <= len rs_old ->
  len rs + m <= n ->
  4 + 10 * n +
    rsizes (rs ++ firstn (Z.to_nat m) (skipn (Z.to_nat srcOld) rs_old)) <= len nw ->
  4 + 10 * n +
    rsizes (rs ++ firstn (Z.to_nat m) (skipn (Z.to_nat srcOld) rs_old)) < 2 ^ 16 ->
  exists nw',
    nodeAppendRange nw old dstNew srcOld m = Ok nw' /\
    Built n (rs ++ firstn (Z.to_nat m) (skipn (Z.to_nat srcOld) rs_old)) nw' /\
    btype nw' = btype nw /\ len nw' = len nw.
Proof.
  intros Hold HB Hd Hs Hm Hsm Hn Hl Hb.
  apply records_iff in Hold as [Hnk Hrec].
  pose proof (nkeys_inv _ _ Hnk) as [_ Hnb].
  set (rs2 := firstn (Z.to_nat m) (skipn (Z.to_nat srcOld) rs_old)) in *.
  assert (Hlen2 : len rs2 = m).
  { unfold rs2. rewrite len_firstn; [reflexivity |].
    rewrite len_skipn by lia. lia. }
  unfold nodeAppendRange.
  assert (Hidx : indices 0 m = indices 0 (0 + len rs2)) by (f_equal; lia).
  rewrite Hidx.
  apply (appendRange_loop_Built n old dstNew srcOld rs2 0 rs nw); try lia;
    try assumption.
  intros j r E. unfold rs2 in E.
  rewrite nth_error_firstn in E.
  destruct (j <? Z.to_nat m)%nat; [| discriminate].
  rewrite nth_error_skipn in E. apply Hrec in E.
  rewrite <- E. f_equal. lia.
Qed.

Lemma Built_records n rs node :
  Built n rs node -> len rs = n -> records node = Ok rs.
Proof.
  intros HB Hlen. apply records_iff. split.
  - rewrite Hlen. apply HB.
  - intros i r E. apply (Built_getRec n rs); assumption.
Qed.

(** ** Inserting into a leaf *)

(** C2.  For every readable node [old] with record sequence [rs], every
    index [0 <= idx <= nkeys(old)], key and value, and every buffer [nw]
    large enough for the result, [leafInsert] returns a leaf whose key
    count is [nkeys(old) + 1] and whose record sequence is the records
    [0, idx) of [old], then the new record (with a zero pointer), then the
    records [idx, nkeys) of [old], one position to the right. *)
Theorem leafInsert_records nw old idx key val rs :
  records old = Ok rs ->
  0 <= idx <= len rs ->
  4 + 10 * (len rs + 1) + rsizes rs + (4 + len key + len val) <= len nw ->
  4 + 10 * (len rs + 1) + rsizes rs + (4 + len key + len val) < 2 ^ 16 ->
  exists nw',
    leafInsert nw old idx key val = Ok nw' /\
    btype nw' = Ok BNODE_LEAF /\
    nkeys nw' = Ok (len rs + 1) /\
    records nw' =
      Ok (firstn (Z.to_nat idx) rs ++ mkRecord 0 key val :: skipn (Z.to_nat idx) rs).
Proof.
  intros Hold Hidx Hl Hb.
  pose proof (proj1 (proj1 (records_iff _ _) Hold)) as Hnk.
  pose proof (rsizes_nonneg rs) as Hs0. pose proof (len_nonneg rs) as Hr0.
  pose proof (len_nonneg key) as Hk0. pose proof (len_nonneg val) as Hv0.
  pose proof (rsizes_firstn_skipn (Z.to_nat idx) rs) as Hsplit.
  pose proof (rsizes_nonneg (firstn (Z.to_nat idx) rs)) as Hf0.
  pose proof (rsizes_nonneg (skipn (Z.to_nat idx) rs)) as Hsk0.
  set (n := len rs) in *. set (r := mkRecord 0 key val).
  set (rs1 := firstn (Z.to_nat idx) rs) in *.
  set (rs3 := skipn (Z.to_nat idx) rs) in *.
  assert (Hlen1 : len rs1 = idx) by (apply len_firstn; lia).
  assert (Hlen3 : len rs3 = n - idx) by (apply len_skipn; lia).
  unfold leafInsert. rewrite Hnk. cbn [bind].
  rewrite (u16_small (n + 1)), (u16_small (idx + 1)), (u16_small (n - idx)) by lia.
  (* the header *)
  destruct (setHeader_Built nw BNODE_LEAF (n + 1)) as (nw1 & -> & HB1 & Hbt1 & Hln1);
    try lia.
  cbn [bind].
  (* the records before idx *)
  destruct (nodeAppendRange_Built (n + 1) old rs nw1 [] 0 0 idx Hold HB1)
    as (nw2 & -> & HB2 & Hbt2 & Hln2);
    try reflexivity; try lia;
    try (change (Z.to_nat 0) with 0%nat; cbn [skipn app]; fold rs1; lia).
  { unfold len at 1. cbn [length]. lia. }
  cbn [bind]. cbn [app skipn] in HB2. change (Z.to_nat 0) with 0%nat in HB2.
  cbn [skipn] in HB2. fold rs1 in HB2.
  (* the new record *)
  assert (Hrsz : rsizes (rs1 ++ [r]) = rsizes rs1 + (4 + len key + len val)).
  { rewrite rsizes_app. cbn [rsizes fold_right]. unfold rsize, r.
    cbn [rkey rval]. lia. }
  destruct (Built_step (n + 1) rs1 nw2 r HB2) as (nw3 & Hrun & HB3 & Hbt3 & Hln3);
    try (rewrite ?Hrsz; cbn [rptr r]; lia).
  rewrite Hlen1 in Hrun. cbn [rptr rkey rval r] in Hrun. rewrite Hrun.
  cbn [bind].
  (* the records from idx on *)
  assert (Hrs3 : firstn (Z.to_nat (n - idx)) (skipn (Z.to_nat idx) rs) = rs3).
  { apply firstn_all2. fold rs3. unfold len in Hlen3. lia. }
  assert (Hsz : rsizes ((rs1 ++ [r]) ++ rs3) = rsizes rs + (4 + len key + len val)).
  { rewrite !rsizes_app. cbn [rsizes fold_right]. unfold rsize, r.
    cbn [rkey rval]. lia. }
  destruct (nodeAppendRange_Built (n + 1) old rs nw3 (rs1 ++ [r]) (idx + 1) idx
              (n - idx) Hold HB3)
    as (nw4 & -> & HB4 & Hbt4 & Hln4);
    try (rewrite Hrs3, Hsz; lia); try lia.
  { rewrite len_app. unfold len at 2. cbn [length]. lia. }
  { rewrite len_app. unfold len at 2. cbn [length]. lia. }
  rewrite Hrs3 in HB4. rewrite <- app_assoc in HB4. cbn [app] in HB4.
  exists nw4. split; [reflexivity |]. split; [| split].
  - rewrite Hbt4, Hbt3, Hbt2, Hbt1. reflexivity.
  - apply HB4.
  - apply (Built_records (n + 1)); [exact HB4 |].
    rewrite len_app.
    replace (len (r :: rs3)) with (1 + len rs3) by (unfold len; cbn [length]; lia).
    lia.
Qed.

(** ** Replacing one child by several *)

Lemma len_cons {A} (x : A) l : len (x :: l) = 1 + len l.
Proof. unfold len. cbn [length]. lia. Qed.

Section ReplaceKidsProofs.
Context {Store : Type}.
Variable tree : BTree Store.
Hypothesis new_u64 : forall node s, 0 <= fst (new tree node s) < 2 ^ 64.

Lemma length_alloc_all : forall kids st,
  length (fst (alloc_all tree st kids)) = length kids.
Proof.
  induction kids as [| kid kids IH]; intros st; cbn [alloc_all]; [reflexivity |].
  destruct (new tree kid st) as [p st'].
  specialize (IH st'). destruct (alloc_all tree st' kids) as [ps st''].
  cbn [fst length] in *. f_equal. exact IH.
Qed.

Lemma len_routing kids keys st :
  Forall2 (fun kid k => getKey kid 0 = Ok k) kids keys ->
  len (routing (fst (alloc_all tree st kids)) keys) = len kids.
Proof.
  intros HF. apply Forall2_length in HF.
  unfold routing, len. rewrite length_map, length_combine, length_alloc_all.
  lia.
Qed.

Lemma replaceKids_loop_Built n idx :
  forall kids keys st nw rs i,
    Built n rs nw ->
    Forall2 (fun kid k => getKey kid 0 = Ok k) kids keys ->
    0 <= i -> 0 <= idx -> idx + i = len rs -> i + len kids < 2 ^ 16 ->
    len rs + len kids <= n ->
    4 + 10 * n + rsizes (rs ++ routing (fst (alloc_all tree st kids)) keys)
      <= len nw ->
    4 + 10 * n + rsizes (rs ++ routing (fst (alloc_all tree st kids)) keys)
      < 2 ^ 16 ->
    exists nw',
      replaceKids_loop tree st nw idx i kids
        = Ok (nw', snd (alloc_all tree st kids)) /\
      Built n (rs ++ routing (fst (alloc_all tree st kids)) keys) nw' /\
      btype nw' = btype nw /\ len nw' = len nw.
Proof.
  induction kids as [| kid kids IH];
    intros keys st nw rs i HB HF Hi Hidx Hd Hik Hn Hl Hb.
  - inversion HF; subst. cbn. rewrite app_nil_r. exists nw. auto.
  - inversion HF as [| ? k ? keys' Hk HF']; subst. clear HF.
    cbn [replaceKids_loop alloc_all] in *.
    pose proof (new_u64 kid st) as Hp.
    destruct (new tree kid st) as [p st'] eqn:Enew. cbn [fst] in Hp.
    specialize (IH keys' st').
    destruct (alloc_all tree st' kids) as [ps st''] eqn:Eall.
    cbn [fst snd] in *.
    unfold routing in Hl, Hb |- *. cbn [combine map fst snd] in Hl, Hb |- *.
    fold (routing ps keys') in Hl, Hb |- *.
    set (r := mkRecord p k []) in *.
    rewrite len_cons in *.
    pose proof (len_nonneg kids). pose proof (len_nonneg rs).
    pose proof (rsizes_nonneg (routing ps keys')) as Hnn.
    assert (Hsz : rsizes (rs ++ r :: routing ps keys')
                  = rsizes (rs ++ [r]) + rsizes (routing ps keys')).
    { rewrite !rsizes_app. cbn [rsizes fold_right].
      fold (rsizes (routing ps keys')). lia. }
    rewrite Hk. cbn [bind].
    pose proof HB as (_ & _ & _ & HBb & _). pose proof (rsizes_nonneg rs).
    rewrite (u16_small i), (u16_small (idx + i)) by lia. rewrite Hd.
    destruct (Built_step n rs nw r HB) as (nw1 & Hrun & HB1 & Hbt1 & Hlen1);
      try (cbn [rptr r]; lia).
    cbn [rptr rkey rval r] in Hrun. rewrite Hrun. cbn [bind].
    destruct (IH nw1 (rs ++ [r]) (i + 1) HB1 HF') as (nw' & Hloop & HB' & Hbt' & Hlen');
      try lia;
      try (rewrite len_app, len_cons; unfold len at 2; cbn [length]; lia);
      try (rewrite <- app_assoc; cbn [app]; lia).
    exists nw'. rewrite <- app_assoc in HB'. cbn [app] in HB'.
    split; [exact Hloop | split; [exact HB' | split; congruence]].
Qed.
End ReplaceKidsProofs.

(** C4.  For every readable node [old] with record sequence [rs], every
    index [0 <= idx < nkeys(old)] and every list of children whose first
    key can be read, [nodeReplaceKidN] builds, in a buffer large enough
    for the result, an internal node of [nkeys(old) + len(kids) - 1] keys:
    the records [0, idx) of [old], then for each child the record made of
    the page id that [tree.new] returned for it, its first key and an
    empty value, then the records [idx+1, nkeys) of [old].  The store is
    the one left by the allocations, made in the order of the children.
    (The list of children may even be empty.) *)
Theorem nodeReplaceKidN_records {Store : Type} (tree : BTree Store)
    (st : Store) nw old idx kids rs keys :
  (forall node s, 0 <= fst (new tree node s) < 2 ^ 64) ->
  records old = Ok rs ->
  0 <= idx < len rs ->
  Forall2 (fun kid k => getKey kid 0 = Ok k) kids keys ->
  let ids := fst (alloc_all tree st kids) in
  let rs' := firstn (Z.to_nat idx) rs ++ routing ids keys
               ++ skipn (Z.to_nat (idx + 1)) rs in
  4 + 10 * (len rs + len kids - 1) + rsizes rs' <= len nw ->
  4 + 10 * (len rs + len kids - 1) + rsizes rs' < 2 ^ 16 ->
  exists nw',
    nodeReplaceKidN tree st nw old idx kids
      = Ok (nw', snd (alloc_all tree st kids)) /\
    btype nw' = Ok BNODE_NODE /\
    nkeys nw' = Ok (len rs + len kids - 1) /\
    records nw' = Ok rs'.
Proof.
  intros Hnew Hold Hidx HF ids rs' Hl Hb.
  pose proof (proj1 (proj1 (records_iff _ _) Hold)) as Hnk.
  set (n := len rs) in *. set (k := len kids) in *.
  set (rs1 := firstn (Z.to_nat idx) rs) in *.
  set (rs2 := routing ids keys) in *.
  set (rs3 := skipn (Z.to_nat (idx + 1)) rs) in *.
  pose proof (len_nonneg kids) as Hk0. fold k in Hk0.
  pose proof (rsizes_nonneg rs1) as H1. pose proof (rsizes_nonneg rs2) as H2.
  pose proof (rsizes_nonneg rs3) as H3.
  assert (Hsz : rsizes rs' = rsizes rs1 + rsizes rs2 + rsizes rs3)
    by (unfold rs'; rewrite !rsizes_app; lia).
  assert (Hlen1 : len rs1 = idx) by (apply len_firstn; lia).
  assert (Hlen2 : len rs2 = k) by (apply len_routing; exact HF).
  assert (Hlen3 : len rs3 = n - (idx + 1)) by (apply len_skipn; lia).
  unfold nodeReplaceKidN. rewrite Hnk. cbn [bind]. fold k.
  rewrite (u16_small k) by lia.
  rewrite (u16_small (n + k)), (u16_small (n + k - 1)), (u16_small (idx + k)),
    (u16_small (idx + 1)), (u16_small (n - (idx + 1))) by lia.
  (* the header *)
  destruct (setHeader_Built nw BNODE_NODE (n + k - 1))
    as (nw1 & -> & HB1 & Hbt1 & Hln1); try lia.
  cbn [bind].
  (* the records before idx *)
  destruct (nodeAppendRange_Built (n + k - 1) old rs nw1 [] 0 0 idx Hold HB1)
    as (nw2 & -> & HB2 & Hbt2 & Hln2);
    try reflexivity; try lia;
    try (change (Z.to_nat 0) with 0%nat; cbn [skipn app]; fold rs1; lia).
  { unfold len at 1. cbn [length]. lia. }
  cbn [bind]. change (Z.to_nat 0) with 0%nat in HB2. cbn [app skipn] in HB2.
  fold rs1 in HB2.
  (* the children *)
  destruct (replaceKids_loop_Built tree Hnew (n + k - 1) idx kids keys st nw2 rs1 0
              HB2 HF)
    as (nw3 & -> & HB3 & Hbt3 & Hln3); try (fold ids rs2 k; lia); try lia.
  { fold ids rs2. rewrite rsizes_app. lia. }
  { fold ids rs2. rewrite rsizes_app. lia. }
  cbn [bind]. fold ids rs2 in HB3.
  (* the records after idx *)
  assert (Hrs3 : firstn (Z.to_nat (n - (idx + 1))) (skipn (Z.to_nat (idx + 1)) rs) = rs3).
  { apply firstn_all2. fold rs3. unfold len in Hlen3. lia. }
  destruct (nodeAppendRange_Built (n + k - 1) old rs nw3 (rs1 ++ rs2) (idx + k)
              (idx + 1) (n - (idx + 1)) Hold HB3)
    as (nw4 & -> & HB4 & Hbt4 & Hln4);
    try (rewrite ?Hrs3, ?len_app, ?rsizes_app; lia).
  rewrite Hrs3 in HB4. rewrite <- app_assoc in HB4. fold rs' in HB4.
  cbn [bind]. exists nw4. split; [reflexivity |]. split; [| split].
  - rewrite Hbt4, Hbt3, Hbt2, Hbt1. reflexivity.
  - apply HB4.
  - apply (Built_records (n + k - 1)); [exact HB4 |].
    unfold rs'. rewrite !len_app. lia.
Qed.

(** ** The order of byte strings *)

Lemma Compare_antisym : forall a b, Compare b a = - Compare a b.
Proof.
  induction a as [| x a IH]; intros [| y b]; cbn [Compare]; try reflexivity.
  rewrite (Z.compare_antisym (byte.unsigned x) (byte.unsigned y)).
  destruct (byte.unsigned x ?= byte.unsigned y); cbn [CompOpp];
    (reflexivity || apply IH).
Qed.

Lemma Compare_le_lt_trans : forall a b c,
  Compare a b <= 0 -> Compare b c < 0 -> Compare a c < 0.
Proof.
  induction a as [| x a IH]; intros [| y b] [| z c]; cbn [Compare];
    try lia.
  destruct (Z.compare_spec (byte.unsigned x) (byte.unsigned y));
    destruct (Z.compare_spec (byte.unsigned y) (byte.unsigned z));
    destruct (Z.compare_spec (byte.unsigned x) (byte.unsigned z));
    try lia.
  apply IH.
Qed.

(** A key that is not below the target puts every greater key strictly
    above the target. *)
Lemma Compare_above k k' key :
  0 <= Compare k key -> Compare k k' < 0 -> 0 < Compare k' key.
Proof.
  intros H1 H2.
  assert (Compare key k' < 0) as H.
  { apply (Compare_le_lt_trans key k k'); [| exact H2].
    rewrite (Compare_antisym k key). lia. }
  rewrite (Compare_antisym key k'). lia.
Qed.

(** ** The scan of [nodeLookupLE] *)

Lemma indices_snoc lo hi : lo <= hi -> indices lo (hi + 1) = indices lo hi ++ [hi].
Proof.
  intros H. unfold indices.
  replace (Z.to_nat (hi + 1 - lo)) with (Z.to_nat (hi - lo) + 1)%nat by lia.
  rewrite seq_app, map_app. cbn [seq map]. do 2 f_equal. lia.
Qed.

Lemma In_indices lo hi i : In i (indices lo hi) <-> lo <= i < hi.
Proof.
  unfold indices. rewrite in_map_iff. split.
  - intros (k & <- & Hk). apply in_seq in Hk. lia.
  - intros H. exists (Z.to_nat (i - lo)). split; [lia |].
    apply in_seq. lia.
Qed.

Ltac splits := repeat match goal with |- _ /\ _ => split end.

Section Scan.
Variables (node : BNode) (key : list byte) (n : Z) (K : Z -> list byte).
Hypothesis HK : forall i, 1 <= i < n -> getKey node i = Ok (K i).

Lemma lookup_scan_spec : forall (m : nat) i seen,
  Z.of_nat m = n - i -> 1 <= i ->
  exists r stop,
    lookup_scan node key (indices i n) (i - 1) seen
      = Ok (r, seen ++ indices i stop) /\
    i <= stop <= n /\
    stop - 2 <= r < stop /\ i - 1 <= r /\
    (forall j, i <= j < stop - 1 -> Compare (K j) key < 0) /\
    (forall j, i <= j <= r -> Compare (K j) key <= 0) /\
    (r < stop - 1 -> 0 < Compare (K (stop - 1)) key) /\
    (stop < n -> 0 <= Compare (K (stop - 1)) key /\ i < stop).
Proof.
  induction m as [| m IH]; intros i seen Hm Hi.
  - rewrite indices_nil by lia. cbn [lookup_scan].
    exists (i - 1), i. rewrite indices_nil, app_nil_r by lia.
    splits; try reflexivity; try lia; intros; lia.
  - rewrite indices_cons by lia. cbn [lookup_scan].
    rewrite HK by lia. cbn [bind].
    destruct (Z.leb_spec (Compare (K i) key) 0) as [Hle | Hgt];
      rewrite Z.geb_leb;
      destruct (Z.leb_spec 0 (Compare (K i) key)) as [Hge | Hlt]; try lia.
    + (* the key at i is the target *)
      exists i, (i + 1). rewrite indices_cons, indices_nil by lia.
      replace (i + 1 - 1) with i by lia.
      splits; try reflexivity; try lia; intros j Hj; try lia.
      replace j with i by lia. lia.
    + (* the key at i is below the target: go on *)
      destruct (IH (i + 1) (seen ++ [i])) as
        (r & stop & Hrun & Hstop & Hr & Hr' & Hlt' & Hle' & Hgt' & Hend);
        try lia.
      replace (i + 1 - 1) with i in Hrun by lia.
      exists r, stop. rewrite Hrun.
      rewrite (indices_cons i stop) by lia.
      rewrite <- app_assoc. cbn [app].
      splits; try reflexivity; try lia.
      * intros j Hj. destruct (Z.eq_dec j i) as [-> | Hne]; [lia |].
        apply Hlt'. lia.
      * intros j Hj. destruct (Z.eq_dec j i) as [-> | Hne]; [lia |].
        apply Hle'. lia.
    + (* the key at i is above the target: stop *)
      exists (i - 1), (i + 1). rewrite indices_cons, indices_nil by lia.
      replace (i + 1 - 1) with i by lia.
      splits; try reflexivity; try lia; intros; lia.
Qed.
End Scan.

(** C1.  For every node of [n] keys whose keys at the indices [1..n-1]
    are readable and strictly increasing, and every target key,
    [nodeLookupLE] returns an index [r] that is 0 or has a key at or below
    the target, and no index of [1..n-1] above [r] has a key at or below
    the target: [r] is the greatest qualifying index, index 0 qualifying
    without being compared.  The indices compared are [1, ..., stop-1] in
    this order; every key compared before the last one is strictly below
    the target, so nothing is compared past the first key that exceeds
    the target (nor past a key equal to it), and when the scan ends before
    the last key, the key it ended on is at or above the target. *)
Theorem nodeLookupLE_greatest_le node key n (K : Z -> list byte) :
  nkeys node = Ok n ->
  (forall i, 1 <= i < n -> getKey node i = Ok (K i)) ->
  (forall i j, 1 <= i -> i < j -> j < n -> Compare (K i) (K j) < 0) ->
  exists r stop,
    nodeLookupLE_trace node key = Ok (r, indices 1 stop) /\
    nodeLookupLE node key = Ok r /\
    (r = 0 \/ (1 <= r < n /\ Compare (K r) key <= 0)) /\
    (forall j, 1 <= j < n -> Compare (K j) key <= 0 -> j <= r) /\
    ~ In 0 (indices 1 stop) /\
    (forall i, In i (indices 1 stop) ->
       1 <= i < n /\ forall j, 1 <= j < i -> Compare (K j) key < 0) /\
    (1 < stop -> stop < n -> 0 <= Compare (K (stop - 1)) key).
Proof.
  intros Hn HK Hsorted.
  pose proof (nkeys_inv _ _ Hn) as [_ Hn0].
  unfold nodeLookupLE, nodeLookupLE_trace. rewrite Hn. cbn [bind].
  destruct (Z.le_gt_cases n 1) as [Hsmall | Hbig].
  - (* no key to compare *)
    rewrite indices_nil by lia. cbn [lookup_scan bind fst].
    exists 0, 1. rewrite indices_nil by lia.
    splits; auto; try (intros; lia); try (intros i []).
  - destruct (lookup_scan_spec node key n K HK (Z.to_nat (n - 1)) 1 [])
      as (r & stop & Hrun & Hstop & Hr & Hr' & Hlt & Hle & Hgt & Hend);
      try lia.
    change (1 - 1) with 0 in Hrun. cbn [app] in Hrun.
    exists r, stop. rewrite Hrun. cbn [bind fst].
    split; [reflexivity |]. split; [reflexivity |].
    split; [| split; [| split; [| split]]].
    + destruct (Z.eq_dec r 0) as [-> | Hnz]; [left; reflexivity | right].
      split; [lia |]. apply Hle. lia.
    + intros j Hj Hcmp.
      destruct (Z.le_gt_cases j r) as [| Hjr]; [assumption | exfalso].
      destruct (Z.eq_dec j (stop - 1)) as [-> | Hne].
      * specialize (Hgt ltac:(lia)). lia.
      * destruct Hend as [Hge Hlt1]; [lia |].
        pose proof (Compare_above (K (stop - 1)) (K j) key Hge
                      (Hsorted (stop - 1) j ltac:(lia) ltac:(lia) ltac:(lia))).
        lia.
    + rewrite In_indices. lia.
    + intros i Hin. apply In_indices in Hin. split; [lia |].
      intros j Hj. apply Hlt. lia.
    + intros H1 Hs. apply Hend. exact Hs.
Qed.

(** ** The layout of one appended record *)

(** C6.  For every node under construction with [n] keys, every index
    [idx < n] whose offset is [off], every pointer, key and value such
    that the record fits the buffer at [kvPos(idx)], [nodeAppendKV]
    succeeds; in the buffer it returns, the bytes at [kvPos(idx)] are the
    16-bit little-endian key length, the 16-bit little-endian value
    length, the key bytes and the value bytes, the offset of [idx] is
    unchanged and the offset of [idx+1] is that of [idx] plus
    [4 + len(key) + len(val)]; the pointer slot holds the pointer.
    [getOffset(0)] is 0 for every buffer. *)
Theorem nodeAppendKV_layout nw idx ptr key val n off :
  nkeys nw = Ok n ->
  0 <= idx < n ->
  getOffset nw idx = Ok off ->
  HEADER + 8 * n + 2 * n + off + 4 + len key + len val <= len nw ->
  HEADER + 8 * n + 2 * n + off + 4 + len key + len val < 2 ^ 16 ->
  (forall node, getOffset node 0 = Ok 0) /\
  exists nw',
    nodeAppendKV nw idx ptr key val = Ok nw' /\
    kvPos nw' idx = Ok (HEADER + 8 * n + 2 * n + off) /\
    load nw' (HEADER + 8 * n + 2 * n + off) (4 + len key + len val)
      = Ok (le_split 2 (len key) ++ le_split 2 (len val) ++ key ++ val) /\
    getOffset nw' idx = Ok off /\
    getOffset nw' (idx + 1) = Ok (off + 4 + len key + len val) /\
    getPtr nw' idx = Ok (u64 ptr).
Proof.
  unfold HEADER. intros Hn Hi Ho Hl Hb.
  split; [reflexivity |].
  pose proof (getOffset_inv _ _ _ Ho) as Hoff.
  pose proof (len_nonneg key) as Hk0. pose proof (len_nonneg val) as Hv0.
  exists (appendKV_image nw n idx off ptr key val).
  assert (Hn' : nkeys (appendKV_image nw n idx off ptr key val) = Ok n)
    by (apply image_nkeys; (assumption || lia)).
  assert (Ho' : getOffset (appendKV_image nw n idx off ptr key val) idx = Ok off)
    by (rewrite image_getOffset by (assumption || lia); exact Ho).
  splits.
  - apply nodeAppendKV_run; try assumption; rewrite u16_small; lia.
  - rewrite (kvPos_eq _ n idx off) by (assumption || lia). f_equal. lia.
  - replace (4 + 8 * n + 2 * n + off) with (4 + 10 * n + off) by lia.
    apply image_record; (assumption || lia).
  - exact Ho'.
  - rewrite (getOffset_eq _ n) by (assumption || lia).
    replace (4 + 8 * n + 2 * (idx + 1 - 1)) with (4 + 8 * n + 2 * idx) by lia.
    apply image_offset; (assumption || lia).
  - rewrite (getPtr_eq _ n) by (assumption || lia).
    apply image_ptr; (assumption || lia).
Qed.

(** C10.  [nodeAppendKV] has no check on the lengths of the key and of
    the value: for every key and value, of any length, it succeeds as
    soon as the record header and the start of the value (computed from
    the 16-bit key length) lie in the buffer, and the two length fields of
    the record then hold [len(key) mod 2^16] and [len(val) mod 2^16]. *)
Theorem nodeAppendKV_length_fields_mod nw idx ptr key val n off :
  nkeys nw = Ok n ->
  0 <= idx < n ->
  getOffset nw idx = Ok off ->
  HEADER + 8 * n + 2 * n + off + 4 + u16 (len key) <= len nw ->
  HEADER + 8 * n + 2 * n + off + 4 + u16 (len key) < 2 ^ 16 ->
  exists nw',
    nodeAppendKV nw idx ptr key val = Ok nw' /\
    kvPos nw' idx = Ok (HEADER + 8 * n + 2 * n + off) /\
    Uint16_at nw' (HEADER + 8 * n + 2 * n + off) = Ok (len key mod 2 ^ 16) /\
    Uint16_at nw' (HEADER + 8 * n + 2 * n + off + 2) = Ok (len val mod 2 ^ 16).
Proof.
  unfold HEADER. intros Hn Hi Ho Hl Hb.
  pose proof (getOffset_inv _ _ _ Ho) as Hoff.
  pose proof (u16_range (len key)) as Hk.
  exists (appendKV_image nw n idx off ptr key val).
  assert (Hn' : nkeys (appendKV_image nw n idx off ptr key val) = Ok n).
  { unfold appendKV_image. rewrite !nkeys_write by lia. exact Hn. }
  splits.
  - apply nodeAppendKV_run; (assumption || lia).
  - rewrite (kvPos_eq _ n idx off); try assumption; try lia.
    + f_equal. lia.
    + rewrite image_getOffset by (assumption || lia). exact Ho.
  - replace (4 + 8 * n + 2 * n + off) with (4 + 10 * n + off) by lia.
    unfold appendKV_image.
    rewrite !Uint16_at_write_frame by (rewrite ?len_le_split; lia).
    rewrite Uint16_at_write_same by (rewrite ?len_write; lia).
    unfold u16. rewrite Z.mod_mod by lia. reflexivity.
  - replace (4 + 8 * n + 2 * n + off) with (4 + 10 * n + off) by lia.
    unfold appendKV_image.
    rewrite !Uint16_at_write_frame by (rewrite ?len_le_split; lia).
    rewrite Uint16_at_write_same by (rewrite ?len_write; lia).
    unfold u16. rewrite Z.mod_mod by lia. reflexivity.
Qed.

(** ** An empty node *)

(** C9.  On a node with zero keys [nodeLookupLE] returns 0 and compares
    no key, so no bounds assertion is evaluated; but 0 is not the index
    of a record of that node: [getKey] and [getPtr] at the returned index
    fail their bounds assertion. *)
Theorem nodeLookupLE_empty node key :
  nkeys node = Ok 0 ->
  nodeLookupLE node key = Ok 0 /\
  nodeLookupLE_trace node key = Ok (0, []) /\
  getKey node 0 = Fault (AssertFailed "index is greater than nkeys") /\
  getPtr node 0 = Fault (AssertFailed "index less than value").
Proof.
  intros Hn. unfold nodeLookupLE, nodeLookupLE_trace, getKey, getPtr.
  rewrite Hn. cbn. auto.
Qed.

(** ** The start-up check *)

(** C8.  With the page size 4096, the maximum key size 1000 and the
    maximum value size 3000, the size of a node holding one maximal
    record is 4 + 8 + 2 + 4 + 1000 + 3000 = 4018, which is at most the
    page size: the assertion of [init] holds. *)
Theorem init_ok :
  BTREE_PAGE_SIZE = 4096 /\ BTREE_MAX_KEY_SIZE = 1000 /\
  BTREE_MAX_VAL_SIZE = 3000 /\
  node1max = 4018 /\ node1max <= BTREE_PAGE_SIZE /\ init = Ok tt.
Proof. splits; try reflexivity. unfold node1max, BTREE_PAGE_SIZE. cbn. lia. Qed.

(** ** The pointer table *)

(** C5, as amended.  Every node, whatever its kind, has the same layout:
    after the header of 4 bytes comes a pointer table of 8 bytes per key,
    then an offset table of 2 bytes per key, then the records.  The
    pointer of [idx] is read at byte [4 + 8*idx], the offset of
    [idx >= 1] at byte [4 + 8*nkeys + 2*(idx-1)], and the record of [idx]
    starts at [kvPos(idx) = 4 + 8*nkeys + 2*nkeys + offset(idx)] (as a
    16-bit integer); the encoded size is that position for
    [idx = nkeys]. *)
Theorem kvPos_with_pointers node idx n off :
  nkeys node = Ok n ->
  0 <= idx <= n ->
  getOffset node idx = Ok off ->
  kvPos node idx = Ok (u16 (HEADER + 8 * n + 2 * n + off)) /\
  (HEADER + 8 * n + 2 * n + off < 2 ^ 16 ->
   kvPos node idx = Ok (HEADER + 8 * n + 2 * n + off)) /\
  (idx = n -> nbytes node = Ok (u16 (HEADER + 8 * n + 2 * n + off))) /\
  (idx < n -> HEADER + 8 * n <= 2 ^ 16 ->
   getPtr node idx = Uint64_at node (HEADER + 8 * idx)) /\
  (1 <= idx -> HEADER + 8 * n + 2 * n <= 2 ^ 16 ->
   Uint16_at node (HEADER + 8 * n + 2 * (idx - 1)) = Ok off).
Proof.
  intros Hn Hi Ho.
  assert (Hkv : kvPos node idx = Ok (u16 (HEADER + 8 * n + 2 * n + off))).
  { unfold kvPos. rewrite Hn. cbn [bind]. ztrue. cbn [Assert bind].
    rewrite Ho. reflexivity. }
  pose proof (nkeys_inv _ _ Hn) as [_ Hn0].
  pose proof (getOffset_inv _ _ _ Ho) as Ho0.
  splits.
  - exact Hkv.
  - intros Hb. rewrite Hkv. unfold HEADER in *. rewrite u16_small by lia.
    reflexivity.
  - intros ->. unfold nbytes. rewrite Hn. cbn [bind]. exact Hkv.
  - unfold HEADER. intros Hlt Hb. apply (getPtr_eq node n); (assumption || lia).
  - unfold HEADER. intros Hge Hb.
    rewrite <- (getOffset_eq node n) by (assumption || lia). exact Ho.
Qed.

(** ** Splitting an oversized node *)

(** C3, on the code.  [nodeSplit2] does nothing, so for every node whose
    encoded size exceeds the page size [nodeSplit3] returns two parts
    that are the zeroed buffers it allocated: both have no key and no
    record, whatever the records of the node were. *)
Theorem nodeSplit3_oversized old sz :
  nbytes old = Ok sz ->
  BTREE_PAGE_SIZE < sz ->
  nodeSplit3 old = Ok (2, (make BTREE_PAGE_SIZE, make BTREE_PAGE_SIZE, [])) /\
  nkeys (make BTREE_PAGE_SIZE) = Ok 0 /\
  records (make BTREE_PAGE_SIZE) = Ok [].
Proof.
  intros Hsz Hbig. splits.
  - unfold nodeSplit3. rewrite Hsz. cbn [bind].
    rewrite (proj2 (Z.leb_gt sz BTREE_PAGE_SIZE)) by lia.
    vm_compute. reflexivity.
  - vm_compute. reflexivity.
  - vm_compute. reflexivity.
Qed.

(** The other branch of [nodeSplit3]: a node that fits a page comes back
    alone, cut to the page size. *)
Lemma nodeSplit3_fits old sz :
  nbytes old = Ok sz -> sz <= BTREE_PAGE_SIZE -> BTREE_PAGE_SIZE <= len old ->
  nodeSplit3 old = Ok (1, (firstn (Z.to_nat BTREE_PAGE_SIZE) old, [], [])).
Proof.
  intros Hsz Hfit Hlen. unfold nodeSplit3. rewrite Hsz. cbn [bind].
  rewrite (proj2 (Z.leb_le sz BTREE_PAGE_SIZE)) by lia.
  rewrite load_ok by (unfold BTREE_PAGE_SIZE in *; lia).
  reflexivity.
Qed.

(** * The theorems at concrete nodes *)

Ltac by_computation :=
  lazymatch goal with
  | |- _ /\ _ => split; by_computation
  | |- _ <= _ => apply Z.leb_le; vm_compute; reflexivity
  | |- _ < _ => apply Z.ltb_lt; vm_compute; reflexivity
  | |- _ = _ => vm_compute; reflexivity
  end.

(** C5: in the leaf with the keys 1, 3, 5 the record of index 0 starts at
    byte 34, after a pointer table of 24 bytes, not at byte 10. *)
Lemma leaf_kvPos_counterexample : ~ leaf_kvPos_without_pointers.
Proof.
  intros H.
  assert (kvPos leaf_135 0 = Ok (HEADER + 2 * 3 + 0)) as E.
  { apply H; by_computation. }
  vm_compute in E. discriminate E.
Qed.

Lemma kvPos_with_pointers_witness :
  btype leaf_135 = Ok BNODE_LEAF /\
  nkeys leaf_135 = Ok 3 /\ 0 <= 1 <= 3 /\ getOffset leaf_135 1 = Ok 6 /\
  kvPos leaf_135 1 = Ok (u16 (HEADER + 8 * 3 + 2 * 3 + 6)) /\
  (HEADER + 8 * 3 + 2 * 3 + 6 < 2 ^ 16 ->
   kvPos leaf_135 1 = Ok (HEADER + 8 * 3 + 2 * 3 + 6)) /\
  (1 = 3 -> nbytes leaf_135 = Ok (u16 (HEADER + 8 * 3 + 2 * 3 + 6))) /\
  (1 < 3 -> HEADER + 8 * 3 <= 2 ^ 16 ->
   getPtr leaf_135 1 = Uint64_at leaf_135 (HEADER + 8 * 1)) /\
  (1 <= 1 -> HEADER + 8 * 3 + 2 * 3 <= 2 ^ 16 ->
   Uint16_at leaf_135 (HEADER + 8 * 3 + 2 * (1 - 1)) = Ok 6).
Proof.
  split; [vm_compute; reflexivity |].
  split; [vm_compute; reflexivity |].
  split; [lia |].
  split; [vm_compute; reflexivity |].
  apply (kvPos_with_pointers leaf_135 1 3 6).
  - vm_compute; reflexivity.
  - lia.
  - vm_compute; reflexivity.
Defined.

Lemma nodeLookupLE_greatest_le_witness :
  exists r stop,
    nodeLookupLE_trace leaf_135 (bytes_of [4]) = Ok (r, indices 1 stop) /\
    nodeLookupLE leaf_135 (bytes_of [4]) = Ok r /\
    (r = 0 \/ (1 <= r < 3 /\ Compare (leaf_135_key r) (bytes_of [4]) <= 0)) /\
    (forall j, 1 <= j < 3 -> Compare (leaf_135_key j) (bytes_of [4]) <= 0 -> j <= r) /\
    ~ In 0 (indices 1 stop) /\
    (forall i, In i (indices 1 stop) ->
       1 <= i < 3 /\
       forall j, 1 <= j < i -> Compare (leaf_135_key j) (bytes_of [4]) < 0) /\
    (1 < stop -> stop < 3 -> 0 <= Compare (leaf_135_key (stop - 1)) (bytes_of [4])).
Proof.
  apply (nodeLookupLE_greatest_le leaf_135 (bytes_of [4]) 3 leaf_135_key).
  - vm_compute; reflexivity.
  - intros i Hi. assert (i = 1 \/ i = 2) as [-> | ->] by lia;
      vm_compute; reflexivity.
  - intros i j Hi Hij Hj. assert (i = 1) as -> by lia. assert (j = 2) as -> by lia.
    vm_compute; reflexivity.
Defined.

Lemma leafInsert_records_witness :
  exists nw',
    leafInsert (make 64) leaf_15 1 (bytes_of [3]) (bytes_of [99]) = Ok nw' /\
    btype nw' = Ok BNODE_LEAF /\
    nkeys nw' = Ok 3 /\
    records nw' = Ok leaf_135_records.
Proof.
  apply (leafInsert_records (make 64) leaf_15 1 (bytes_of [3]) (bytes_of [99])
           [ mkRecord 0 (bytes_of [1]) (bytes_of [97]);
             mkRecord 0 (bytes_of [5]) (bytes_of [98]) ]);
    by_computation.
Defined.

Lemma nodeReplaceKidN_records_witness :
  exists nw',
    nodeReplaceKidN counter_tree 9 (make 64) inner_15 0 [leaf_1; leaf_3]
      = Ok (nw', 11) /\
    btype nw' = Ok BNODE_NODE /\
    nkeys nw' = Ok 3 /\
    records nw' =
      Ok [ mkRecord 9 (bytes_of [1]) []; mkRecord 10 (bytes_of [3]) [];
           mkRecord 8 (bytes_of [5]) [] ].
Proof.
  apply (nodeReplaceKidN_records counter_tree 9 (make 64) inner_15 0
           [leaf_1; leaf_3] inner_15_records [bytes_of [1]; bytes_of [3]]).
  - intros node s. cbn [new counter_tree fst]. apply Z.mod_pos_bound. reflexivity.
  - vm_compute; reflexivity.
  - by_computation.
  - repeat constructor.
  - by_computation.
  - by_computation.
Defined.

Lemma nodeAppendKV_layout_witness :
  (forall node, getOffset node 0 = Ok 0) /\
  exists nw',
    nodeAppendKV fresh_leaf_2 0 0 (bytes_of [1]) (bytes_of [97; 98]) = Ok nw' /\
    kvPos nw' 0 = Ok 24 /\
    load nw' 24 7 = Ok (bytes_of [1; 0; 2; 0; 1; 97; 98]) /\
    getOffset nw' 0 = Ok 0 /\
    getOffset nw' 1 = Ok 7 /\
    getPtr nw' 0 = Ok 0.
Proof.
  apply (nodeAppendKV_layout fresh_leaf_2 0 0 (bytes_of [1]) (bytes_of [97; 98]) 2 0);
    by_computation.
Defined.

Lemma nodeAppendKV_length_fields_mod_witness :
  65536 <= len long_key /\ 65536 <= len long_val /\
  exists nw',
    nodeAppendKV fresh_leaf_1 0 0 long_key long_val = Ok nw' /\
    kvPos nw' 0 = Ok 14 /\
    Uint16_at nw' 14 = Ok 1 /\
    Uint16_at nw' 16 = Ok 2.
Proof.
  split; [by_computation |]. split; [by_computation |].
  apply (nodeAppendKV_length_fields_mod fresh_leaf_1 0 0 long_key long_val 1 0);
    by_computation.
Defined.

Lemma nodeLookupLE_empty_witness :
  nkeys empty_leaf = Ok 0 /\
  nodeLookupLE empty_leaf (bytes_of [1]) = Ok 0 /\
  nodeLookupLE_trace empty_leaf (bytes_of [1]) = Ok (0, []) /\
  getKey empty_leaf 0 = Fault (AssertFailed "index is greater than nkeys") /\
  getPtr empty_leaf 0 = Fault (AssertFailed "index less than value").
Proof.
  split; [vm_compute; reflexivity |].
  apply (nodeLookupLE_empty empty_leaf (bytes_of [1])).
  vm_compute; reflexivity.
Defined.

(** C3: the leaf of two maximal records, 8032 bytes, comes back as two
    empty nodes. *)
Lemma nodeSplit3_oversized_witness :
  nkeys big_leaf = Ok 2 /\
  nbytes big_leaf = Ok 8032 /\
  records big_leaf =
    Ok [ mkRecord 0 (max_key 1) (max_val 7); mkRecord 0 (max_key 2) (max_val 8) ] /\
  nodeSplit3 big_leaf
    = Ok (2, (make BTREE_PAGE_SIZE, make BTREE_PAGE_SIZE, [])) /\
  nkeys (make BTREE_PAGE_SIZE) = Ok 0 /\
  records (make BTREE_PAGE_SIZE) = Ok [].
Proof.
  split; [vm_compute; reflexivity |].
  split; [vm_compute; reflexivity |].
  split; [vm_compute; reflexivity |].
  apply (nodeSplit3_oversized big_leaf 8032).
  - vm_compute; reflexivity.
  - by_computation.
Defined.

(** The size limits are used by [init] only: the builders take a key and
    a value above the limits as they take any other. *)
Lemma leafInsert_above_limits :
  BTREE_MAX_KEY_SIZE < len (repeat Byte.x01 1001) /\
  BTREE_MAX_VAL_SIZE < len (repeat Byte.x02 3001) /\
  (r <- leafInsert (make (2 * BTREE_PAGE_SIZE))
          (node_of (setHeader (make BTREE_PAGE_SIZE) BNODE_LEAF 0))
          0 (repeat Byte.x01 1001) (repeat Byte.x02 3001) ;;
   records r)
  = Ok [ mkRecord 0 (repeat Byte.x01 1001) (repeat Byte.x02 3001) ].
Proof. by_computation. Qed.

(** * Further properties of the node codec and of the builders *)

(** ** The header *)

Lemma load_short node p m : len node < p + m -> load node p m = Fault OutOfRange.
Proof.
  intros H. unfold load.
  destruct (0 <=? p); destruct (0 <=? m); cbn [andb]; try reflexivity.
  destruct (Z.leb_spec (p + m) (len node)); [lia | reflexivity].
Qed.

Lemma store_short node p src :
  len node < p + len src -> store node p src = Fault OutOfRange.
Proof.
  intros H. unfold store.
  destruct (0 <=? p); cbn [andb]; try reflexivity.
  destruct (Z.leb_spec (p + len src) (len node)); [lia | reflexivity].
Qed.

(** X1.  On a buffer of at least 4 bytes [setHeader] succeeds; the kind
    and the key count read back are the two 16-bit values written, the
    length is kept and no byte from position 4 on is changed. *)
Theorem setHeader_roundtrip node bt n :
  4 <= len node ->
  exists node',
    setHeader node bt n = Ok node' /\
    btype node' = Ok (u16 bt) /\
    nkeys node' = Ok (u16 n) /\
    len node' = len node /\
    (forall p m, 4 <= p -> load node' p m = load node p m).
Proof.
  intros Hl. unfold setHeader, PutUint16_at.
  rewrite store_ok by (rewrite ?len_le_split; lia). cbn [bind].
  rewrite store_ok by (rewrite ?len_write, ?len_le_split; lia).
  eexists. split; [reflexivity |]. splits.
  - unfold btype. rewrite Uint16_at_write_frame by (rewrite ?len_le_split; lia).
    apply Uint16_at_write_same; lia.
  - unfold nkeys. apply Uint16_at_write_same; rewrite ?len_write; lia.
  - rewrite !len_write. reflexivity.
  - intros p m Hp. frame_load. reflexivity.
Qed.

Lemma setHeader_roundtrip_witness :
  exists node',
    setHeader (make 64) BNODE_LEAF 3 = Ok node' /\
    btype node' = Ok (u16 BNODE_LEAF) /\
    nkeys node' = Ok (u16 3) /\
    len node' = len (make 64) /\
    (forall p m, 4 <= p -> load node' p m = load (make 64) p m).
Proof. apply (setHeader_roundtrip (make 64) BNODE_LEAF 3). by_computation. Defined.

(** X2.  On a buffer shorter than the header (fewer than 4 bytes) the
    key count cannot be read: [nkeys], [setHeader] and every operation
    that starts by reading the key count stop with an out-of-range fault,
    before any assertion is evaluated. *)
Theorem short_buffer_faults node :
  len node < 4 ->
  nkeys node = Fault OutOfRange /\
  (forall bt n, setHeader node bt n = Fault OutOfRange) /\
  (forall idx, getPtr node idx = Fault OutOfRange) /\
  (forall idx, kvPos node idx = Fault OutOfRange) /\
  (forall idx, getKey node idx = Fault OutOfRange) /\
  nbytes node = Fault OutOfRange /\
  (forall key, nodeLookupLE node key = Fault OutOfRange) /\
  nodeSplit3 node = Fault OutOfRange /\
  (forall nw idx key val, leafInsert nw node idx key val = Fault OutOfRange).
Proof.
  intros Hl.
  assert (Hn : nkeys node = Fault OutOfRange).
  { unfold nkeys, Uint16_at. rewrite load_short by lia. reflexivity. }
  splits; try exact Hn; intros;
    unfold getPtr, kvPos, getKey, nbytes, nodeLookupLE, nodeLookupLE_trace,
      nodeSplit3, leafInsert;
    rewrite ?Hn; try reflexivity.
  2: { unfold nbytes. rewrite Hn. reflexivity. }
  unfold setHeader, PutUint16_at.
  destruct (store node 0 (le_split 2 bt)) as [node1|] eqn:E; cbn [bind].
  - apply store_short. unfold store in E.
    destruct ((0 <=? 0) && (0 + len (le_split 2 bt) <=? len node)); [| discriminate].
    injection E as <-. rewrite len_write, len_le_split. lia.
  - unfold store in E.
    destruct ((0 <=? 0) && (0 + len (le_split 2 bt) <=? len node)); [discriminate |].
    symmetry. exact E.
Qed.

Lemma short_buffer_faults_witness :
  nkeys (make 3) = Fault OutOfRange /\
  (forall bt n, setHeader (make 3) bt n = Fault OutOfRange) /\
  (forall idx, getPtr (make 3) idx = Fault OutOfRange) /\
  (forall idx, kvPos (make 3) idx = Fault OutOfRange) /\
  (forall idx, getKey (make 3) idx = Fault OutOfRange) /\
  nbytes (make 3) = Fault OutOfRange /\
  (forall key, nodeLookupLE (make 3) key = Fault OutOfRange) /\
  nodeSplit3 (make 3) = Fault OutOfRange /\
  (forall nw idx key val, leafInsert nw (make 3) idx key val = Fault OutOfRange).
Proof. apply (short_buffer_faults (make 3)). by_computation. Defined.

(** X3.  The index assertions: on a node of [n] keys, [getPtr] and
    [getKey] fail their assertion at every index [idx >= n], and [kvPos]
    fails its assertion at every index [idx > n]; no byte of a record is
    read. *)
Theorem index_assertions node n idx :
  nkeys node = Ok n ->
  n <= idx ->
  getPtr node idx = Fault (AssertFailed "index less than value") /\
  getKey node idx = Fault (AssertFailed "index is greater than nkeys") /\
  (n < idx ->
   kvPos node idx = Fault (AssertFailed "index is greater than nkeys")).
Proof.
  intros Hn Hi. unfold getPtr, getKey, kvPos. rewrite Hn. cbn [bind].
  rewrite (proj2 (Z.ltb_ge idx n)) by lia. cbn [Assert bind].
  splits; try reflexivity.
  intros Hlt. rewrite (proj2 (Z.leb_gt idx n)) by lia. reflexivity.
Qed.

Lemma index_assertions_witness :
  getPtr leaf_135 3 = Fault (AssertFailed "index less than value") /\
  getKey leaf_135 3 = Fault (AssertFailed "index is greater than nkeys") /\
  (3 < 3 ->
   kvPos leaf_135 3 = Fault (AssertFailed "index is greater than nkeys")).
Proof. apply (index_assertions leaf_135 3 3); [by_computation | lia]. Defined.

(** ** More on the lookup *)

Lemma Compare_refl : forall a, Compare a a = 0.
Proof.
  induction a as [| x a IH]; cbn [Compare]; [reflexivity |].
  rewrite Z.compare_refl. exact IH.
Qed.

Lemma Compare_le_trans : forall a b c,
  Compare a b <= 0 -> Compare b c <= 0 -> Compare a c <= 0.
Proof.
  induction a as [| x a IH]; intros [| y b] [| z c]; cbn [Compare];
    try lia.
  destruct (Z.compare_spec (byte.unsigned x) (byte.unsigned y));
    destruct (Z.compare_spec (byte.unsigned y) (byte.unsigned z));
    destruct (Z.compare_spec (byte.unsigned x) (byte.unsigned z));
    try lia.
  apply IH.
Qed.

(** What the scan establishes about its result, whatever the order of
    the keys. *)
Lemma lookup_facts node key n (K : Z -> list byte) :
  nkeys node = Ok n ->
  (forall i, 1 <= i < n -> getKey node i = Ok (K i)) ->
  exists r,
    nodeLookupLE node key = Ok r /\
    0 <= r /\ (r = 0 \/ r < n) /\
    (forall j, 1 <= j <= r -> Compare (K j) key <= 0) /\
    (forall j, 1 <= j < r -> Compare (K j) key < 0) /\
    (r + 1 < n ->
     (1 <= r /\ Compare (K r) key = 0) \/ 0 < Compare (K (r + 1)) key).
Proof.
  intros Hn HK.
  unfold nodeLookupLE, nodeLookupLE_trace. rewrite Hn. cbn [bind].
  destruct (Z.le_gt_cases n 1) as [Hsmall | Hbig].
  - rewrite indices_nil by lia. cbn [lookup_scan bind fst].
    exists 0. splits; try reflexivity; try lia; intros; lia.
  - destruct (lookup_scan_spec node key n K HK (Z.to_nat (n - 1)) 1 [])
      as (r & stop & Hrun & Hstop & Hr & Hr' & Hlt & Hle & Hgt & Hend);
      try lia.
    change (1 - 1) with 0 in Hrun. rewrite Hrun. cbn [bind fst].
    exists r. splits; try reflexivity; try lia.
    + exact Hle.
    + intros j Hj. apply Hlt. lia.
    + intros Hrn.
      destruct (Z.eq_dec r (stop - 1)) as [-> | Hne].
      * left. destruct Hend as [Hge Hs]; [lia |].
        specialize (Hle (stop - 1) ltac:(lia)). lia.
      * right. replace (r + 1) with (stop - 1) by lia. apply Hgt. lia.
Qed.

(** With keys strictly increasing on [1..n-1], no index above the
    result has a key at or below the target. *)
Lemma lookup_greatest key n (K : Z -> list byte) r :
  (forall i j, 1 <= i -> i < j -> j < n -> Compare (K i) (K j) < 0) ->
  0 <= r ->
  (forall j, 1 <= j <= r -> Compare (K j) key <= 0) ->
  (r + 1 < n ->
   (1 <= r /\ Compare (K r) key = 0) \/ 0 < Compare (K (r + 1)) key) ->
  forall j, 1 <= j < n -> Compare (K j) key <= 0 -> j <= r.
Proof.
  intros Hsorted Hr Hle Hnext j Hj Hcmp.
  destruct (Z.le_gt_cases j r) as [| Hjr]; [assumption | exfalso].
  destruct Hnext as [[Hr1 Heq] | Hgt]; [lia | |].
  - pose proof (Compare_above (K r) (K j) key ltac:(lia)
                  (Hsorted r j ltac:(lia) ltac:(lia) ltac:(lia))).
    lia.
  - destruct (Z.eq_dec j (r + 1)) as [-> | Hne]; [lia |].
    pose proof (Compare_above (K (r + 1)) (K j) key ltac:(lia)
                  (Hsorted (r + 1) j ltac:(lia) ltac:(lia) ltac:(lia))).
    lia.
Qed.

(** X4.  Without any assumption on the order of the keys, [nodeLookupLE]
    returns an index [r] that is 0 or below the key count; the keys at
    [1..r] are at or below the target, those at [1..r-1] strictly below;
    and when [r] is not the last index, either the key at [r] is the
    target or the key at [r+1] is above it: the scan ends at the first key
    from index 1 on that is not below the target. *)
Theorem nodeLookupLE_any_order node key n (K : Z -> list byte) :
  nkeys node = Ok n ->
  (forall i, 1 <= i < n -> getKey node i = Ok (K i)) ->
  exists r,
    nodeLookupLE node key = Ok r /\
    0 <= r /\ (r = 0 \/ r < n) /\
    (forall j, 1 <= j <= r -> Compare (K j) key <= 0) /\
    (forall j, 1 <= j < r -> Compare (K j) key < 0) /\
    (r + 1 < n ->
     (1 <= r /\ Compare (K r) key = 0) \/ 0 < Compare (K (r + 1)) key).
Proof. exact (lookup_facts node key n K). Qed.

Lemma lookup_stored_key node n (K : Z -> list byte) t :
  nkeys node = Ok n ->
  (forall i, 0 <= i < n -> getKey node i = Ok (K i)) ->
  (forall i j, 0 <= i -> i < j -> j < n -> Compare (K i) (K j) < 0) ->
  0 <= t < n ->
  nodeLookupLE node (K t) = Ok t.
Proof.
  intros Hn HK Hsorted Ht.
  destruct (lookup_facts node (K t) n K Hn) as (r & Hrun & Hr0 & Hrn & Hle & Hlt & Hnext).
  { intros i Hi. apply HK. lia. }
  rewrite Hrun. f_equal.
  destruct (Z.lt_trichotomy r t) as [Hlt' | [-> | Hgt]]; [exfalso | reflexivity | exfalso].
  - destruct Hnext as [[Hr1 Heq] | Hgt]; [lia | |].
    + pose proof (Hsorted r t ltac:(lia) ltac:(lia) ltac:(lia)). lia.
    + destruct (Z.eq_dec (r + 1) t) as [E | Hne].
      * rewrite E, Compare_refl in Hgt. lia.
      * pose proof (Hsorted (r + 1) t ltac:(lia) ltac:(lia) ltac:(lia)). lia.
  - destruct (Z.eq_dec t 0) as [-> | Hnz].
    + pose proof (Hle r ltac:(lia)).
      pose proof (Hsorted 0 r ltac:(lia) ltac:(lia) ltac:(lia)) as H0.
      rewrite (Compare_antisym (K 0) (K r)) in H. lia.
    + pose proof (Hlt t ltac:(lia)) as H. rewrite Compare_refl in H. lia.
Qed.

(** X5.  In a node whose keys are strictly increasing, looking up the
    key stored at an index returns that index, for every index from 0 to
    the last. *)
Theorem nodeLookupLE_finds_stored_key node n (K : Z -> list byte) t :
  nkeys node = Ok n ->
  (forall i, 0 <= i < n -> getKey node i = Ok (K i)) ->
  (forall i j, 0 <= i -> i < j -> j < n -> Compare (K i) (K j) < 0) ->
  0 <= t < n ->
  nodeLookupLE node (K t) = Ok t.
Proof. exact (lookup_stored_key node n K t). Qed.

(** X6.  In a node whose keys are strictly increasing, the lookup is
    monotone: a target at or below another gets an index at or below the
    other's. *)
Theorem nodeLookupLE_monotone node n (K : Z -> list byte) key1 key2 :
  nkeys node = Ok n ->
  (forall i, 1 <= i < n -> getKey node i = Ok (K i)) ->
  (forall i j, 1 <= i -> i < j -> j < n -> Compare (K i) (K j) < 0) ->
  Compare key1 key2 <= 0 ->
  exists r1 r2,
    nodeLookupLE node key1 = Ok r1 /\ nodeLookupLE node key2 = Ok r2 /\
    r1 <= r2.
Proof.
  intros Hn HK Hsorted H12.
  destruct (lookup_facts node key1 n K Hn HK) as (r1 & Hrun1 & Hr1 & Hrn1 & Hle1 & _ & _).
  destruct (lookup_facts node key2 n K Hn HK) as (r2 & Hrun2 & Hr2 & Hrn2 & Hle2 & _ & Hnext2).
  exists r1, r2. splits; try assumption.
  destruct (Z.eq_dec r1 0) as [-> | Hnz]; [lia |].
  apply (lookup_greatest key2 n K r2 Hsorted Hr2 Hle2 Hnext2); [lia |].
  apply (Compare_le_trans (K r1) key1 key2); [apply Hle1; lia | exact H12].
Qed.

(** X7.  The two ends of the lookup, for keys in any order: a target
    below every key from index 1 on gets index 0 (whatever the key at
    index 0 is), and a target above every key from index 1 on gets the
    last index. *)
Theorem nodeLookupLE_ends node n (K : Z -> list byte) key :
  nkeys node = Ok n ->
  (forall i, 1 <= i < n -> getKey node i = Ok (K i)) ->
  1 <= n ->
  ((forall i, 1 <= i < n -> 0 < Compare (K i) key) ->
   nodeLookupLE node key = Ok 0) /\
  ((forall i, 1 <= i < n -> Compare (K i) key < 0) ->
   nodeLookupLE node key = Ok (n - 1)).
Proof.
  intros Hn HK Hn1.
  destruct (lookup_facts node key n K Hn HK) as (r & Hrun & Hr0 & Hrn & Hle & Hlt & Hnext).
  rewrite Hrun. split; intros Hall; f_equal.
  - destruct (Z.eq_dec r 0) as [| Hnz]; [assumption | exfalso].
    pose proof (Hle r ltac:(lia)). pose proof (Hall r ltac:(lia)). lia.
  - destruct (Z.lt_ge_cases (r + 1) n) as [Hlt' | Hge]; [exfalso | lia].
    destruct (Hnext Hlt') as [[Hr1 Heq] | Hgt].
    + pose proof (Hall r ltac:(lia)). lia.
    + pose proof (Hall (r + 1) ltac:(lia)). lia.
Qed.

(** ** The outcomes of [nodeSplit3] *)

Lemma nbytes_no_assert node msg : nbytes node <> Fault (AssertFailed msg).
Proof.
  unfold nbytes, kvPos.
  destruct (nkeys node) as [n | f] eqn:Hn; cbn [bind].
  2: { unfold nkeys, Uint16_at in Hn.
       destruct (load node 2 2) as [bs |] eqn:E; cbn [bind] in Hn; [discriminate |].
       unfold load in E.
       destruct ((0 <=? 2) && (0 <=? 2) && (2 + 2 <=? len node)); [discriminate |].
       congruence. }
  pose proof (nkeys_inv _ _ Hn) as [_ Hn0].
  rewrite Z.leb_refl. cbn [Assert bind].
  unfold getOffset, offsetPos. rewrite Hn. cbn [bind].
  destruct (Z.eqb_spec n 0); cbn [bind]; [discriminate |].
  ztrue. cbn [andb Assert bind].
  unfold Uint16_at, load.
  destruct (_ && _); cbn [bind]; discriminate.
Qed.

(** X8.  [nodeSplit3] has two outcomes only.  A node whose encoded size
    is at most the page size comes back alone, as its first
    [BTREE_PAGE_SIZE] bytes; a larger one comes back as two zero-filled
    buffers of one page each.  It never returns three parts and never
    fails an assertion (it can only stop on a buffer too short to read or
    to cut). *)
Theorem nodeSplit3_outcomes old :
  (forall msg, nodeSplit3 old <> Fault (AssertFailed msg)) /\
  (forall cnt a b c,
     nodeSplit3 old = Ok (cnt, (a, b, c)) ->
     exists sz,
       nbytes old = Ok sz /\
       ((sz <= BTREE_PAGE_SIZE /\ cnt = 1 /\
         a = firstn (Z.to_nat BTREE_PAGE_SIZE) old /\
         len a = BTREE_PAGE_SIZE /\ b = [] /\ c = []) \/
        (BTREE_PAGE_SIZE < sz /\ cnt = 2 /\
         a = make BTREE_PAGE_SIZE /\ b = make BTREE_PAGE_SIZE /\ c = []))).
Proof.
  unfold nodeSplit3.
  pose proof (nbytes_no_assert old) as Hna.
  destruct (nbytes old) as [sz | f]; cbn [bind].
  2: { split; [intros msg E; apply (Hna msg); congruence | intros; discriminate]. }
  destruct (Z.leb_spec sz BTREE_PAGE_SIZE) as [Hfit | Hbig].
  - destruct (load old 0 BTREE_PAGE_SIZE) as [old' |] eqn:E; cbn [bind].
    + split; [discriminate |].
      intros cnt a b c H. injection H as <- <- <- <-.
      apply load_inv in E as (_ & _ & _ & Hlen & ->).
      exists sz. split; [reflexivity |]. left.
      cbn [skipn] in *. change (Z.to_nat 0) with 0%nat in *. cbn [skipn] in *.
      splits; auto.
    + unfold load in E.
      destruct ((0 <=? 0) && (0 <=? BTREE_PAGE_SIZE)
                && (0 + BTREE_PAGE_SIZE <=? len old)); [discriminate |].
      injection E as <-. split; [discriminate | intros; discriminate].
  - match goal with
    | |- (forall msg, ?X <> _) /\ _ =>
        assert (Hrest : X = Ok (2, (make BTREE_PAGE_SIZE, make BTREE_PAGE_SIZE, [])))
          by (vm_compute; reflexivity)
    end.
    rewrite Hrest. split; [discriminate |].
    intros cnt a b c H. injection H as <- <- <- <-.
    exists sz. split; [reflexivity |]. right. splits; auto.
Qed.

(** ** Reading back what [nodeAppendKV] wrote *)

Lemma getKey_eq node n idx off :
  nkeys node = Ok n -> 0 <= idx < n -> getOffset node idx = Ok off ->
  4 + 10 * n + off + 4 < 2 ^ 16 ->
  getKey node idx =
    (klen <- Uint16_at node (4 + 10 * n + off) ;;
     load node (4 + 10 * n + off + 4) klen).
Proof.
  intros Hn Hi Ho Hb. pose proof (getOffset_inv _ _ _ Ho).
  unfold getKey. rewrite Hn. cbn [bind]. ztrue. cbn [Assert bind].
  rewrite (kvPos_eq node n idx off) by (assumption || lia). cbn [bind].
  rewrite (u16_small (4 + 10 * n + off + 4)) by lia. reflexivity.
Qed.

Lemma getVal_eq node n idx off :
  nkeys node = Ok n -> 0 <= idx < n -> getOffset node idx = Ok off ->
  4 + 10 * n + off + 4 < 2 ^ 16 ->
  getVal node idx =
    (klen <- Uint16_at node (4 + 10 * n + off) ;;
     vlen <- Uint16_at node (4 + 10 * n + off + 2) ;;
     load node (u16 (4 + 10 * n + off + 4 + klen)) vlen).
Proof.
  intros Hn Hi Ho Hb. pose proof (getOffset_inv _ _ _ Ho).
  unfold getVal. rewrite Hn. cbn [bind]. ztrue. cbn [Assert bind].
  rewrite (kvPos_eq node n idx off) by (assumption || lia). cbn [bind].
  rewrite (u16_small (4 + 10 * n + off + 2)) by lia. reflexivity.
Qed.

(** A record whose bytes are in place is decoded by [getKey] and
    [getVal]. *)
Lemma getKV_of_load node n idx off key val :
  nkeys node = Ok n -> 0 <= idx < n -> getOffset node idx = Ok off ->
  4 + 10 * n + off + 4 + len key + len val < 2 ^ 16 ->
  load node (4 + 10 * n + off) (4 + len key + len val) = Ok (encode_kv key val) ->
  getKey node idx = Ok key /\ getVal node idx = Ok val.
Proof.
  intros Hn Hi Ho Hb Hr.
  pose proof (getOffset_inv _ _ _ Ho).
  pose proof (len_nonneg key). pose proof (len_nonneg val).
  unfold encode_kv in Hr.
  replace (4 + len key + len val)
    with (len (le_split 2 (len key)) + len (le_split 2 (len val) ++ key ++ val)) in Hr
    by (rewrite !len_app, !len_le_split; lia).
  apply load_split_app in Hr as [Hk Hr].
  rewrite len_app in Hr. apply load_split_app in Hr as [Hv Hr].
  rewrite len_app in Hr. apply load_split_app in Hr as [Hkey Hval].
  rewrite !len_le_split in *. change (Z.of_nat 2) with 2 in *.
  set (pos := 4 + 10 * n + off) in *.
  replace (pos + 2 + 2) with (pos + 4) in * by lia.
  assert (Hklen : Uint16_at node pos = Ok (len key)).
  { unfold Uint16_at. rewrite Hk. cbn [bind].
    rewrite le_combine_split16, u16_small by lia. reflexivity. }
  assert (Hvlen : Uint16_at node (pos + 2) = Ok (len val)).
  { unfold Uint16_at. rewrite Hv. cbn [bind].
    rewrite le_combine_split16, u16_small by lia. reflexivity. }
  rewrite (getKey_eq node n idx off), (getVal_eq node n idx off)
    by (assumption || lia).
  fold pos. rewrite Hklen, Hvlen. cbn [bind].
  rewrite u16_small by lia. auto.
Qed.

(** X9.  What [nodeAppendKV] writes at an index is what the accessors
    read there: after appending at [idx] a record that fits the buffer,
    [getPtr], [getKey] and [getVal] at [idx] return the pointer, the key
    and the value, and the header and the length of the buffer are
    unchanged. *)
Theorem nodeAppendKV_readback nw idx ptr key val n off :
  nkeys nw = Ok n ->
  0 <= idx < n ->
  getOffset nw idx = Ok off ->
  0 <= ptr < 2 ^ 64 ->
  HEADER + 8 * n + 2 * n + off + 4 + len key + len val <= len nw ->
  HEADER + 8 * n + 2 * n + off + 4 + len key + len val < 2 ^ 16 ->
  exists nw',
    nodeAppendKV nw idx ptr key val = Ok nw' /\
    getPtr nw' idx = Ok ptr /\
    getKey nw' idx = Ok key /\
    getVal nw' idx = Ok val /\
    nkeys nw' = Ok n /\ btype nw' = btype nw /\ len nw' = len nw.
Proof.
  unfold HEADER. intros Hn Hi Ho Hp Hl Hb.
  pose proof (getOffset_inv _ _ _ Ho) as Hoff.
  pose proof (len_nonneg key) as Hk0. pose proof (len_nonneg val) as Hv0.
  exists (appendKV_image nw n idx off ptr key val).
  assert (Hn' : nkeys (appendKV_image nw n idx off ptr key val) = Ok n)
    by (apply image_nkeys; (assumption || lia)).
  assert (Ho' : getOffset (appendKV_image nw n idx off ptr key val) idx = Ok off)
    by (rewrite image_getOffset by (assumption || lia); exact Ho).
  destruct (getKV_of_load (appendKV_image nw n idx off ptr key val) n idx off key val)
    as [HK HV]; try assumption; try lia.
  { apply image_record; (assumption || lia). }
  splits; try assumption.
  - apply nodeAppendKV_run; try assumption; rewrite u16_small; lia.
  - rewrite (getPtr_eq _ n) by (assumption || lia).
    rewrite image_ptr by (assumption || lia).
    f_equal. unfold u64. apply Z.mod_small. lia.
  - apply image_btype; (assumption || lia).
  - apply image_len.
Qed.

Lemma Uint16_at_ok_inv node p v :
  Uint16_at node p = Ok v -> exists bs, load node p 2 = Ok bs /\ le_combine bs = v.
Proof.
  unfold Uint16_at. destruct (load node p 2) as [bs |]; cbn [bind]; [| discriminate].
  intros E. injection E as <-. exists bs. auto.
Qed.

(** X10.  Appending the record of index [idx] does not disturb a record
    before it: when the record at [i < idx] ends at or before the offset
    of [idx], the pointer, key and value read at [i] and the offset of [i]
    are the same after the append as before. *)
Theorem nodeAppendKV_keeps_earlier nw idx ptr key val n off i offi r :
  nkeys nw = Ok n ->
  0 <= i < idx -> idx < n ->
  getOffset nw idx = Ok off ->
  getOffset nw i = Ok offi ->
  getRec nw i = Ok r ->
  offi + rsize r <= off ->
  HEADER + 8 * n + 2 * n + off + 4 + len key + len val <= len nw ->
  HEADER + 8 * n + 2 * n + off + 4 + len key + len val < 2 ^ 16 ->
  exists nw',
    nodeAppendKV nw idx ptr key val = Ok nw' /\
    getRec nw' i = Ok r /\
    getOffset nw' i = Ok offi.
Proof.
  unfold HEADER. intros Hn Hi Hidx Ho Hoi Hr Hend Hl Hb.
  pose proof (getOffset_inv _ _ _ Ho) as Hoff.
  pose proof (getOffset_inv _ _ _ Hoi) as Hoffi.
  pose proof (len_nonneg key) as Hk0. pose proof (len_nonneg val) as Hv0.
  pose proof (len_nonneg (rkey r)) as Hrk0. pose proof (len_nonneg (rval r)) as Hrv0.
  unfold rsize in Hend.
  set (nw' := appendKV_image nw n idx off ptr key val).
  assert (Hn' : nkeys nw' = Ok n) by (apply image_nkeys; (assumption || lia)).
  assert (Hoi' : getOffset nw' i = Ok offi)
    by (unfold nw'; rewrite image_getOffset by (assumption || lia); exact Hoi).
  assert (Hframe : forall p m, 0 <= m -> 4 + 10 * n + offi <= p ->
            p + m <= 4 + 10 * n + off -> load nw' p m = load nw p m).
  { intros p m Hm Hp Hpm. unfold nw'. apply image_frame; try assumption; lia. }
  exists nw'. splits.
  - apply nodeAppendKV_run; try assumption; try lia; rewrite u16_small; lia.
  - apply getRec_inv in Hr as (Hp & Hkey & Hval).
    rewrite (getKey_eq nw n i offi) in Hkey by (assumption || lia).
    rewrite (getVal_eq nw n i offi) in Hval by (assumption || lia).
    destruct (Uint16_at nw (4 + 10 * n + offi)) as [klen |] eqn:Eklen;
      cbn [bind] in Hkey, Hval; [| discriminate].
    destruct (Uint16_at nw (4 + 10 * n + offi + 2)) as [vlen |] eqn:Evlen;
      cbn [bind] in Hval; [| discriminate].
    pose proof (Uint16_at_inv _ _ _ Eklen) as (_ & _ & Hkr).
    pose proof (load_inv _ _ _ _ Hkey) as (_ & _ & _ & Hklen & _).
    rewrite u16_small in Hval by lia.
    pose proof (load_inv _ _ _ _ Hval) as (_ & _ & _ & Hvlen & _).
    unfold getRec.
    rewrite (getPtr_eq nw' n), (getKey_eq nw' n i offi), (getVal_eq nw' n i offi)
      by (assumption || lia).
    rewrite (getPtr_eq nw n) in Hp by (assumption || lia).
    unfold Uint64_at, Uint16_at in *.
    unfold nw' at 1. rewrite image_frame by (assumption || lia).
    fold nw'. rewrite Hp. cbn [bind].
    rewrite !(Hframe _ 2) by lia.
    destruct (load nw (4 + 10 * n + offi) 2) as [bk |]; cbn [bind] in *;
      [| discriminate].
    injection Eklen as Eklen. rewrite Eklen.
    rewrite (Hframe _ klen) by lia. rewrite Hkey. cbn [bind].
    destruct (load nw (4 + 10 * n + offi + 2) 2) as [bv |]; cbn [bind] in *;
      [| discriminate].
    injection Evlen as Evlen. rewrite Evlen.
    rewrite u16_small by lia.
    rewrite (Hframe _ vlen) by lia. rewrite Hval. cbn [bind].
    destruct r; reflexivity.
  - exact Hoi'.
Qed.

(** ** More on [leafInsert] *)

(** The node that [leafInsert] builds, as a node under construction
    with all its records in place. *)
Lemma leafInsert_Built nw old idx key val rs :
  records old = Ok rs ->
  0 <= idx <= len rs ->
  4 + 10 * (len rs + 1) + rsizes rs + (4 + len key + len val) <= len nw ->
  4 + 10 * (len rs + 1) + rsizes rs + (4 + len key + len val) < 2 ^ 16 ->
  exists nw',
    leafInsert nw old idx key val = Ok nw' /\
    Built (len rs + 1)
      (firstn (Z.to_nat idx) rs ++ mkRecord 0 key val :: skipn (Z.to_nat idx) rs)
      nw' /\
    btype nw' = Ok BNODE_LEAF /\ len nw' = len nw.
Proof.
  intros Hold Hidx Hl Hb.
  pose proof (proj1 (proj1 (records_iff _ _) Hold)) as Hnk.
  pose proof (rsizes_nonneg rs) as Hs0. pose proof (len_nonneg rs) as Hr0.
  pose proof (len_nonneg key) as Hk0. pose proof (len_nonneg val) as Hv0.
  pose proof (rsizes_firstn_skipn (Z.to_nat idx) rs) as Hsplit.
  pose proof (rsizes_nonneg (firstn (Z.to_nat idx) rs)) as Hf0.
  pose proof (rsizes_nonneg (skipn (Z.to_nat idx) rs)) as Hsk0.
  set (n := len rs) in *. set (r := mkRecord 0 key val).
  set (rs1 := firstn (Z.to_nat idx) rs) in *.
  set (rs3 := skipn (Z.to_nat idx) rs) in *.
  assert (Hlen1 : len rs1 = idx) by (apply len_firstn; lia).
  assert (Hlen3 : len rs3 = n - idx) by (apply len_skipn; lia).
  unfold leafInsert. rewrite Hnk. cbn [bind].
  rewrite (u16_small (n + 1)), (u16_small (idx + 1)), (u16_small (n - idx)) by lia.
  destruct (setHeader_Built nw BNODE_LEAF (n + 1)) as (nw1 & -> & HB1 & Hbt1 & Hln1);
    try lia.
  cbn [bind].
  destruct (nodeAppendRange_Built (n + 1) old rs nw1 [] 0 0 idx Hold HB1)
    as (nw2 & -> & HB2 & Hbt2 & Hln2);
    try reflexivity; try lia;
    try (change (Z.to_nat 0) with 0%nat; cbn [skipn app]; fold rs1; lia).
  { unfold len at 1. cbn [length]. lia. }
  cbn [bind]. cbn [app skipn] in HB2. change (Z.to_nat 0) with 0%nat in HB2.
  cbn [skipn] in HB2. fold rs1 in HB2.
  assert (Hrsz : rsizes (rs1 ++ [r]) = rsizes rs1 + (4 + len key + len val)).
  { rewrite rsizes_app. cbn [rsizes fold_right]. unfold rsize, r.
    cbn [rkey rval]. lia. }
  destruct (Built_step (n + 1) rs1 nw2 r HB2) as (nw3 & Hrun & HB3 & Hbt3 & Hln3);
    try (rewrite ?Hrsz; cbn [rptr r]; lia).
  rewrite Hlen1 in Hrun. cbn [rptr rkey rval r] in Hrun. rewrite Hrun.
  cbn [bind].
  assert (Hrs3 : firstn (Z.to_nat (n - idx)) (skipn (Z.to_nat idx) rs) = rs3).
  { apply firstn_all2. fold rs3. unfold len in Hlen3. lia. }
  assert (Hsz : rsizes ((rs1 ++ [r]) ++ rs3) = rsizes rs + (4 + len key + len val)).
  { rewrite !rsizes_app. cbn [rsizes fold_right]. unfold rsize, r.
    cbn [rkey rval]. lia. }
  destruct (nodeAppendRange_Built (n + 1) old rs nw3 (rs1 ++ [r]) (idx + 1) idx
              (n - idx) Hold HB3)
    as (nw4 & -> & HB4 & Hbt4 & Hln4);
    try (rewrite Hrs3, Hsz; lia); try lia.
  { rewrite len_app. unfold len at 2. cbn [length]. lia. }
  { rewrite len_app. unfold len at 2. cbn [length]. lia. }
  rewrite Hrs3 in HB4. rewrite <- app_assoc in HB4. cbn [app] in HB4.
  exists nw4. split; [reflexivity |]. split; [exact HB4 |]. split.
  - rewrite Hbt4, Hbt3, Hbt2, Hbt1. reflexivity.
  - congruence.
Qed.

Lemma len_insert {A} (l : list A) (x : A) idx :
  0 <= idx <= len l ->
  len (firstn (Z.to_nat idx) l ++ x :: skipn (Z.to_nat idx) l) = len l + 1.
Proof.
  intros H. rewrite len_app, len_cons, len_firstn, len_skipn by lia. lia.
Qed.

Lemma rsizes_insert rs r idx :
  rsizes (firstn idx rs ++ r :: skipn idx rs) = rsizes rs + rsize r.
Proof.
  rewrite rsizes_app, rsizes_cons, (rsizes_firstn_skipn idx rs). lia.
Qed.

(** The encoded size of a node whose records are all in place. *)
Lemma Built_nbytes n rs node :
  Built n rs node -> len rs = n -> nbytes node = Ok (4 + 10 * n + rsizes rs).
Proof.
  intros HB Hlen. pose proof HB as (Hn & _ & _ & Hb & _).
  pose proof (rsizes_nonneg rs).
  unfold nbytes. rewrite Hn. cbn [bind].
  apply kvPos_eq; try assumption; try lia.
  rewrite <- Hlen. unfold len.
  rewrite (Built_offset n rs node (length rs) HB) by lia.
  rewrite firstn_all. reflexivity.
Qed.

(** X12.  The node that [leafInsert] builds has cumulative offsets: the
    offset of each index is the total size of the records before it
    (4 bytes of lengths plus key plus value for each), and its encoded
    size is the header, 10 bytes per key and the total size of the
    records: the size of the old records plus [14 + len(key) + len(val)]
    more than an empty tight node of the old key count. *)
Theorem leafInsert_offsets nw old idx key val rs :
  records old = Ok rs ->
  0 <= idx <= len rs ->
  4 + 10 * (len rs + 1) + rsizes rs + (4 + len key + len val) <= len nw ->
  4 + 10 * (len rs + 1) + rsizes rs + (4 + len key + len val) < 2 ^ 16 ->
  exists nw',
    leafInsert nw old idx key val = Ok nw' /\
    (forall i, (i <= length rs + 1)%nat ->
       getOffset nw' (Z.of_nat i) =
         Ok (rsizes (firstn i (firstn (Z.to_nat idx) rs ++
                               mkRecord 0 key val :: skipn (Z.to_nat idx) rs)))) /\
    nbytes nw' = Ok (HEADER + 10 * (len rs + 1) + rsizes rs + (4 + len key + len val)) /\
    len nw' = len nw.
Proof.
  intros Hold Hidx Hl Hb.
  destruct (leafInsert_Built nw old idx key val rs Hold Hidx Hl Hb)
    as (nw' & Hrun & HB & Hbt & Hlen).
  pose proof (len_insert rs (mkRecord 0 key val) idx Hidx) as Hlen'.
  exists nw'. splits; try assumption.
  - intros i Hi. apply (Built_offset (len rs + 1)); [exact HB |].
    unfold len in Hlen'. lia.
  - rewrite (Built_nbytes _ _ _ HB Hlen'), rsizes_insert.
    unfold HEADER, rsize. cbn [rkey rval]. f_equal. lia.
Qed.

(** The keys of a node whose records are all in place. *)
Lemma Built_getKey n rs node i r :
  Built n rs node -> nth_error rs i = Some r ->
  getKey node (Z.of_nat i) = Ok (rkey r) /\ getVal node (Z.of_nat i) = Ok (rval r).
Proof.
  intros HB E. pose proof (Built_getRec n rs node i r HB E) as H.
  apply getRec_inv in H. tauto.
Qed.

Lemma nth_error_insert {A} (l : list A) (x : A) idx :
  (idx <= length l)%nat ->
  nth_error (firstn idx l ++ x :: skipn idx l) idx = Some x.
Proof.
  intros H. rewrite nth_error_app2 by (rewrite length_firstn; lia).
  rewrite length_firstn. replace (idx - Nat.min idx (length l))%nat with 0%nat by lia.
  reflexivity.
Qed.

(** X13.  Insert, then look up: when the record sequence after the
    insertion has strictly increasing keys, looking up the inserted key in
    the node that [leafInsert] built returns the index of the insertion,
    and the key and the value read at that index are the inserted ones. *)
Theorem leafInsert_then_lookup nw old idx key val rs :
  records old = Ok rs ->
  0 <= idx <= len rs ->
  4 + 10 * (len rs + 1) + rsizes rs + (4 + len key + len val) <= len nw ->
  4 + 10 * (len rs + 1) + rsizes rs + (4 + len key + len val) < 2 ^ 16 ->
  (forall i j ri rj,
     (i < j)%nat ->
     nth_error (firstn (Z.to_nat idx) rs ++ mkRecord 0 key val
                  :: skipn (Z.to_nat idx) rs) i = Some ri ->
     nth_error (firstn (Z.to_nat idx) rs ++ mkRecord 0 key val
                  :: skipn (Z.to_nat idx) rs) j = Some rj ->
     Compare (rkey ri) (rkey rj) < 0) ->
  exists nw',
    leafInsert nw old idx key val = Ok nw' /\
    nodeLookupLE nw' key = Ok idx /\
    getKey nw' idx = Ok key /\
    getVal nw' idx = Ok val.
Proof.
  intros Hold Hidx Hl Hb Hsorted.
  destruct (leafInsert_Built nw old idx key val rs Hold Hidx Hl Hb)
    as (nw' & Hrun & HB & Hbt & Hlen).
  set (rs' := firstn (Z.to_nat idx) rs ++ mkRecord 0 key val
                :: skipn (Z.to_nat idx) rs) in *.
  pose proof (len_insert rs (mkRecord 0 key val) idx Hidx) as Hlen'.
  fold rs' in Hlen'.
  assert (Hat : nth_error rs' (Z.to_nat idx) = Some (mkRecord 0 key val)).
  { apply nth_error_insert. unfold len in Hidx. lia. }
  set (K := fun i : Z => rkey (nth (Z.to_nat i) rs' (mkRecord 0 [] []))).
  assert (Hnth : forall i, 0 <= i < len rs + 1 ->
            nth_error rs' (Z.to_nat i) = Some (nth (Z.to_nat i) rs' (mkRecord 0 [] []))).
  { intros i Hi. apply nth_error_nth'. unfold len in *. lia. }
  assert (HK : forall i, 0 <= i < len rs + 1 -> getKey nw' i = Ok (K i)).
  { intros i Hi.
    destruct (Built_getKey _ _ _ _ _ HB (Hnth i Hi)) as [H _].
    rewrite Z2Nat.id in H by lia. exact H. }
  assert (HKidx : K idx = key).
  { unfold K. rewrite (nth_error_nth _ _ _ Hat). reflexivity. }
  destruct (Built_getKey _ _ _ _ _ HB Hat) as [Hk Hv].
  rewrite Z2Nat.id in Hk, Hv by lia. cbn [rkey rval] in Hk, Hv.
  exists nw'. splits; try assumption.
  rewrite <- HKidx at 1.
  apply (lookup_stored_key nw' (len rs + 1) K idx); try assumption; try lia.
  - apply HB.
  - intros i j Hi Hij Hj. unfold K.
    apply (Hsorted (Z.to_nat i) (Z.to_nat j)); try lia; apply Hnth; lia.
Qed.

Lemma appendRange_loop_app old dstNew srcOld : forall l1 l2 nw,
  appendRange_loop nw old dstNew srcOld (l1 ++ l2) =
  (nw' <- appendRange_loop nw old dstNew srcOld l1 ;;
   appendRange_loop nw' old dstNew srcOld l2).
Proof.
  induction l1 as [| i l1 IH]; intros l2 nw; cbn [app appendRange_loop bind];
    [reflexivity |].
  destruct (getPtr old _); cbn [bind]; [| reflexivity].
  destruct (getKey old _); cbn [bind]; [| reflexivity].
  destruct (getVal old _); cbn [bind]; [| reflexivity].
  destruct (nodeAppendKV nw _ _ _ _); cbn [bind]; [| reflexivity].
  apply IH.
Qed.

Lemma indices_app lo mid hi :
  lo <= mid <= hi -> indices lo hi = indices lo mid ++ indices mid hi.
Proof.
  remember (Z.to_nat (mid - lo)) as k eqn:Hk. revert lo Hk.
  induction k as [| k IH]; intros lo Hk H.
  - assert (lo = mid) as -> by lia. rewrite (indices_nil mid mid) by lia.
    reflexivity.
  - rewrite (indices_cons lo hi), (indices_cons lo mid) by lia.
    cbn [app]. f_equal. apply IH; lia.
Qed.

(** X14.  An insertion index past the key count of [old] is not accepted:
    after the header and the copy of the records of [old], the copy of the
    record of index [nkeys(old)] fails the index assertion of the
    accessors, and [leafInsert] stops there. *)
Theorem leafInsert_index_past_end nw old idx key val rs :
  records old = Ok rs ->
  len rs < idx < 2 ^ 16 ->
  4 + 10 * (len rs + 1) + rsizes rs <= len nw ->
  4 + 10 * (len rs + 1) + rsizes rs < 2 ^ 16 ->
  leafInsert nw old idx key val = Fault (AssertFailed "index less than value").
Proof.
  intros Hold Hidx Hl Hb.
  pose proof (proj1 (records_iff _ _) Hold) as [Hnk Hrec].
  pose proof (rsizes_nonneg rs) as Hs0. pose proof (len_nonneg rs) as Hr0.
  set (n := len rs) in *.
  unfold leafInsert. rewrite Hnk. cbn [bind].
  rewrite (u16_small (n + 1)) by lia.
  destruct (setHeader_Built nw BNODE_LEAF (n + 1)) as (nw1 & -> & HB1 & Hbt1 & Hln1);
    try lia.
  cbn [bind]. unfold nodeAppendRange.
  rewrite (indices_app 0 n idx) by lia.
  rewrite appendRange_loop_app.
  replace n with (0 + len rs) at 1 by (fold n; lia).
  destruct (appendRange_loop_Built (n + 1) old 0 0 rs 0 [] nw1 HB1)
    as (nw2 & -> & HB2 & _ & _);
    try reflexivity; try (cbn [app]; lia); try (fold n; lia).
  { intros j r E. rewrite <- (Hrec j r E). f_equal. }
  { unfold len at 1. cbn [length]. fold n. lia. }
  cbn [bind]. rewrite (indices_cons n idx) by lia. cbn [appendRange_loop].
  rewrite (u16_small (0 + n)) by lia.
  unfold getPtr at 1. rewrite Hnk. cbn [bind]. fold n.
  replace (0 + n) with n by lia.
  rewrite Z.ltb_irrefl. reflexivity.
Qed.

(** ** Insertion and the page size *)

Lemma load_firstn node k p m :
  0 <= k <= len node -> p + m <= k ->
  load (firstn (Z.to_nat k) node) p m = load node p m.
Proof.
  intros Hk Hpm. unfold load.
  assert (Hlen : len (firstn (Z.to_nat k) node) = k) by (apply len_firstn; exact Hk).
  rewrite Hlen.
  destruct (Z.leb_spec 0 p); cbn [andb]; [| reflexivity].
  destruct (Z.leb_spec 0 m); cbn [andb]; [| reflexivity].
  destruct (Z.leb_spec (p + m) k); [| lia].
  destruct (Z.leb_spec (p + m) (len node)); [| lia].
  f_equal. apply nth_error_ext. intros i.
  rewrite !nth_error_firstn, !nth_error_skipn, nth_error_firstn.
  destruct (Nat.ltb_spec i (Z.to_nat m)); [| reflexivity].
  destruct (Nat.ltb_spec (Z.to_nat p + i) (Z.to_nat k)); [reflexivity | lia].
Qed.

(** Cutting a buffer after the last record keeps the node. *)
Lemma Built_firstn n rs node k :
  Built n rs node -> 4 + 10 * n + rsizes rs <= k <= len node ->
  Built n rs (firstn (Z.to_nat k) node).
Proof.
  intros (Hn & Hlen & Hl & Hb & H) Hk.
  pose proof (rsizes_nonneg rs) as Hs0. pose proof (len_nonneg rs) as Hr0.
  assert (Hk' : 0 <= k <= len node) by lia.
  unfold Built. splits; try assumption.
  - unfold nkeys, Uint16_at. rewrite load_firstn by lia. exact Hn.
  - rewrite len_firstn by lia. lia.
  - intros i r E. destruct (H i r E) as (Hp & Ho & Hr).
    pose proof (len_length_lt _ _ _ E) as Hi.
    pose proof (rsizes_firstn_le (S i) rs) as HS.
    rewrite (rsizes_firstn_S _ _ _ E) in HS.
    pose proof (rsizes_nonneg (firstn i rs)).
    unfold Uint64_at, Uint16_at in *.
    rewrite !load_firstn by lia. auto.
Qed.

Lemma leafInsert_one_page nw old idx key val rs :
  records old = Ok rs ->
  0 <= idx <= len rs ->
  4 + 10 * (len rs + 1) + rsizes rs + (4 + len key + len val) <= BTREE_PAGE_SIZE ->
  BTREE_PAGE_SIZE <= len nw ->
  exists nw',
    leafInsert nw old idx key val = Ok nw' /\
    nbytes nw' = Ok (4 + 10 * (len rs + 1) + rsizes rs + (4 + len key + len val)) /\
    nodeSplit3 nw' = Ok (1, (firstn (Z.to_nat BTREE_PAGE_SIZE) nw', [], [])) /\
    len (firstn (Z.to_nat BTREE_PAGE_SIZE) nw') = BTREE_PAGE_SIZE /\
    btype (firstn (Z.to_nat BTREE_PAGE_SIZE) nw') = Ok BNODE_LEAF /\
    records (firstn (Z.to_nat BTREE_PAGE_SIZE) nw') =
      Ok (firstn (Z.to_nat idx) rs ++ mkRecord 0 key val :: skipn (Z.to_nat idx) rs).
Proof.
  unfold BTREE_PAGE_SIZE. intros Hold Hidx Hfit Hpage.
  destruct (leafInsert_Built nw old idx key val rs Hold Hidx) as
    (nw' & Hrun & HB & Hbt & Hlen); try lia.
  pose proof (len_insert rs (mkRecord 0 key val) idx Hidx) as Hlen'.
  pose proof (Built_nbytes _ _ _ HB Hlen') as Hsz.
  rewrite rsizes_insert in Hsz. unfold rsize in Hsz. cbn [rkey rval] in Hsz.
  replace (4 + 10 * (len rs + 1) + (rsizes rs + (4 + len key + len val)))
    with (4 + 10 * (len rs + 1) + rsizes rs + (4 + len key + len val)) in Hsz by lia.
  assert (HB' : Built (len rs + 1)
            (firstn (Z.to_nat idx) rs ++ mkRecord 0 key val :: skipn (Z.to_nat idx) rs)
            (firstn (Z.to_nat 4096) nw')).
  { apply Built_firstn; [exact HB |]. rewrite rsizes_insert. unfold rsize.
    cbn [rkey rval]. lia. }
  exists nw'. splits; try assumption.
  - unfold nodeSplit3, BTREE_PAGE_SIZE. rewrite Hsz. cbn [bind].
    rewrite (proj2 (Z.leb_le _ 4096)) by lia.
    rewrite load_ok by lia. reflexivity.
  - apply len_firstn. lia.
  - unfold btype, Uint16_at. rewrite load_firstn by lia. exact Hbt.
  - apply (Built_records (len rs + 1)); assumption.
Qed.

(** X15.  Insert, then split: when the node that [leafInsert] builds has
    an encoded size of at most one page, [nodeSplit3] returns it alone,
    cut to exactly one page, and the cut keeps the kind and the whole
    record sequence. *)
Theorem leafInsert_then_split_fits nw old idx key val rs :
  records old = Ok rs ->
  0 <= idx <= len rs ->
  4 + 10 * (len rs + 1) + rsizes rs + (4 + len key + len val) <= BTREE_PAGE_SIZE ->
  BTREE_PAGE_SIZE <= len nw ->
  exists nw',
    leafInsert nw old idx key val = Ok nw' /\
    nbytes nw' = Ok (4 + 10 * (len rs + 1) + rsizes rs + (4 + len key + len val)) /\
    nodeSplit3 nw' = Ok (1, (firstn (Z.to_nat BTREE_PAGE_SIZE) nw', [], [])) /\
    len (firstn (Z.to_nat BTREE_PAGE_SIZE) nw') = BTREE_PAGE_SIZE /\
    btype (firstn (Z.to_nat BTREE_PAGE_SIZE) nw') = Ok BNODE_LEAF /\
    records (firstn (Z.to_nat BTREE_PAGE_SIZE) nw') =
      Ok (firstn (Z.to_nat idx) rs ++ mkRecord 0 key val :: skipn (Z.to_nat idx) rs).
Proof. exact (leafInsert_one_page nw old idx key val rs). Qed.

(** X16.  What the start-up assertion is for: a single record whose key
    and value are within [BTREE_MAX_KEY_SIZE] and [BTREE_MAX_VAL_SIZE],
    inserted into an empty node, gives a node of at most [node1max]
    bytes, hence of at most one page, which [nodeSplit3] returns alone
    with its record. *)
Theorem single_record_fits_page nw old key val :
  records old = Ok [] ->
  len key <= BTREE_MAX_KEY_SIZE ->
  len val <= BTREE_MAX_VAL_SIZE ->
  BTREE_PAGE_SIZE <= len nw ->
  exists nw' sz,
    leafInsert nw old 0 key val = Ok nw' /\
    nbytes nw' = Ok sz /\ sz <= node1max /\ node1max <= BTREE_PAGE_SIZE /\
    nodeSplit3 nw' = Ok (1, (firstn (Z.to_nat BTREE_PAGE_SIZE) nw', [], [])) /\
    records (firstn (Z.to_nat BTREE_PAGE_SIZE) nw') = Ok [mkRecord 0 key val].
Proof.
  intros Hold Hk Hv Hpage.
  destruct (leafInsert_one_page nw old 0 key val [] Hold) as
    (nw' & Hrun & Hsz & Hsplit & _ & _ & Hrec); try assumption.
  { unfold len. cbn [length]. lia. }
  { unfold len at 1. cbn [length rsizes fold_right].
    unfold BTREE_MAX_KEY_SIZE, BTREE_MAX_VAL_SIZE, BTREE_PAGE_SIZE in *. lia. }
  exists nw', (4 + 10 * (len (@nil record) + 1) + rsizes [] + (4 + len key + len val)).
  splits; try assumption.
  - unfold len at 1. cbn [length rsizes fold_right]. unfold node1max, HEADER.
    unfold BTREE_MAX_KEY_SIZE, BTREE_MAX_VAL_SIZE in *. lia.
  - unfold node1max, HEADER, BTREE_MAX_KEY_SIZE, BTREE_MAX_VAL_SIZE, BTREE_PAGE_SIZE.
    lia.
Qed.

(** ** Copying a whole node *)

(** X11.  Copying all the records of a node into a buffer with a fresh
    header gives a node with the same record sequence, whose encoded size
    is the header, 10 bytes per key and the sizes of the records. *)
Theorem copy_records_roundtrip nw old bt rs :
  records old = Ok rs ->
  4 + 10 * len rs + rsizes rs <= len nw ->
  4 + 10 * len rs + rsizes rs < 2 ^ 16 ->
  exists nw1 nw',
    setHeader nw bt (len rs) = Ok nw1 /\
    nodeAppendRange nw1 old 0 0 (len rs) = Ok nw' /\
    records nw' = Ok rs /\
    btype nw' = Ok (u16 bt) /\
    nbytes nw' = Ok (HEADER + 10 * len rs + rsizes rs).
Proof.
  intros Hold Hl Hb.
  pose proof (rsizes_nonneg rs) as Hs0. pose proof (len_nonneg rs) as Hr0.
  destruct (setHeader_Built nw bt (len rs)) as (nw1 & Hhdr & HB1 & Hbt1 & Hln1);
    try lia.
  assert (Hall : firstn (Z.to_nat (len rs)) (skipn (Z.to_nat 0) rs) = rs).
  { change (Z.to_nat 0) with 0%nat. cbn [skipn]. rewrite to_nat_len.
    apply firstn_all. }
  destruct (nodeAppendRange_Built (len rs) old rs nw1 [] 0 0 (len rs) Hold HB1)
    as (nw' & Hrun & HB & Hbt & Hln);
    try reflexivity; try lia; try (rewrite Hall; cbn [app]; lia).
  rewrite Hall in HB. cbn [app] in HB.
  exists nw1, nw'. splits; try assumption.
  - apply (Built_records (len rs)); [exact HB | reflexivity].
  - congruence.
  - rewrite (Built_nbytes _ _ _ HB eq_refl). reflexivity.
Qed.

(** ** A child without keys *)

Lemma replaceKids_loop_app {Store : Type} (tree : BTree Store) idx :
  forall l1 l2 st nw i,
    replaceKids_loop tree st nw idx i (l1 ++ l2) =
    (r <- replaceKids_loop tree st nw idx i l1 ;;
     replaceKids_loop tree (snd r) (fst r) idx (i + len l1) l2).
Proof.
  induction l1 as [| kid l1 IH]; intros l2 st nw i; cbn [app replaceKids_loop].
  - cbn [bind fst snd]. unfold len. cbn [length]. rewrite Z.add_0_r. reflexivity.
  - destruct (new tree kid st) as [p st'].
    destruct (getKey kid 0); cbn [bind]; [| reflexivity].
    destruct (nodeAppendKV nw _ p _ []); cbn [bind]; [| reflexivity].
    rewrite IH. rewrite len_cons.
    replace (i + 1 + len l1) with (i + (1 + len l1)) by lia. reflexivity.
Qed.

(** X17.  A child without keys cannot be linked: when one of the
    children has a key count of 0 (and the children before it have a
    readable first key), [nodeReplaceKidN] allocates a page for it and
    then fails the index assertion of [getKey(0)]; no node is returned. *)
Theorem nodeReplaceKidN_empty_child {Store : Type} (tree : BTree Store)
    (st : Store) nw old idx good bad rest rs keys :
  (forall node s, 0 <= fst (new tree node s) < 2 ^ 64) ->
  records old = Ok rs ->
  0 <= idx < len rs ->
  Forall2 (fun kid k => getKey kid 0 = Ok k) good keys ->
  nkeys bad = Ok 0 ->
  4 + 10 * (len rs + len (good ++ bad :: rest) - 1) +
    rsizes (firstn (Z.to_nat idx) rs ++ routing (fst (alloc_all tree st good)) keys)
    <= len nw ->
  4 + 10 * (len rs + len (good ++ bad :: rest) - 1) +
    rsizes (firstn (Z.to_nat idx) rs ++ routing (fst (alloc_all tree st good)) keys)
    < 2 ^ 16 ->
  nodeReplaceKidN tree st nw old idx (good ++ bad :: rest)
    = Fault (AssertFailed "index is greater than nkeys").
Proof.
  intros Hnew Hold Hidx HF Hbad Hl Hb.
  pose proof (proj1 (proj1 (records_iff _ _) Hold)) as Hnk.
  set (n := len rs) in *.
  set (rs1 := firstn (Z.to_nat idx) rs) in *.
  set (rs2 := routing (fst (alloc_all tree st good)) keys) in *.
  rewrite len_app, len_cons in Hl, Hb.
  pose proof (len_nonneg good) as Hg0. pose proof (len_nonneg rest) as Hr0.
  pose proof (rsizes_nonneg rs1) as H1. pose proof (rsizes_nonneg rs2) as H2.
  assert (Hsz : rsizes (rs1 ++ rs2) = rsizes rs1 + rsizes rs2) by apply rsizes_app.
  assert (Hlen1 : len rs1 = idx) by (apply len_firstn; lia).
  assert (Hlen2 : len rs2 = len good) by (apply len_routing; exact HF).
  unfold nodeReplaceKidN. rewrite Hnk. cbn [bind].
  rewrite len_app, len_cons.
  set (k := len good + (1 + len rest)) in *.
  rewrite (u16_small k) by lia.
  rewrite (u16_small (n + k)), (u16_small (n + k - 1)) by lia.
  destruct (setHeader_Built nw BNODE_NODE (n + k - 1))
    as (nw1 & -> & HB1 & Hbt1 & Hln1); try lia.
  cbn [bind].
  destruct (nodeAppendRange_Built (n + k - 1) old rs nw1 [] 0 0 idx Hold HB1)
    as (nw2 & -> & HB2 & Hbt2 & Hln2);
    try reflexivity; try lia;
    try (change (Z.to_nat 0) with 0%nat; cbn [skipn app]; fold rs1; lia).
  { unfold len at 1. cbn [length]. lia. }
  cbn [bind]. change (Z.to_nat 0) with 0%nat in HB2. cbn [app skipn] in HB2.
  fold rs1 in HB2.
  rewrite replaceKids_loop_app.
  destruct (replaceKids_loop_Built tree Hnew (n + k - 1) idx good keys st nw2 rs1 0
              HB2 HF)
    as (nw3 & -> & HB3 & Hbt3 & Hln3); try (fold rs2; lia); try lia.
  cbn [bind fst snd replaceKids_loop].
  destruct (new tree bad (snd (alloc_all tree st good))) as [p st'].
  unfold getKey at 1. rewrite Hbad. reflexivity.
Qed.

(** ** Routing through the new children *)

(** The node that [nodeReplaceKidN] builds, as a node under construction
    with all its records in place. *)
Lemma nodeReplaceKidN_Built {Store : Type} (tree : BTree Store)
    (st : Store) nw old idx kids rs keys :
  (forall node s, 0 <= fst (new tree node s) < 2 ^ 64) ->
  records old = Ok rs ->
  0 <= idx < len rs ->
  Forall2 (fun kid k => getKey kid 0 = Ok k) kids keys ->
  let ids := fst (alloc_all tree st kids) in
  let rs' := firstn (Z.to_nat idx) rs ++ routing ids keys
               ++ skipn (Z.to_nat (idx + 1)) rs in
  4 + 10 * (len rs + len kids - 1) + rsizes rs' <= len nw ->
  4 + 10 * (len rs + len kids - 1) + rsizes rs' < 2 ^ 16 ->
  exists nw',
    nodeReplaceKidN tree st nw old idx kids
      = Ok (nw', snd (alloc_all tree st kids)) /\
    Built (len rs + len kids - 1) rs' nw' /\
    len rs' = len rs + len kids - 1 /\
    len (routing ids keys) = len kids.
Proof.
  intros Hnew Hold Hidx HF ids rs' Hl Hb.
  pose proof (proj1 (proj1 (records_iff _ _) Hold)) as Hnk.
  set (n := len rs) in *. set (k := len kids) in *.
  set (rs1 := firstn (Z.to_nat idx) rs) in *.
  set (rs2 := routing ids keys) in *.
  set (rs3 := skipn (Z.to_nat (idx + 1)) rs) in *.
  pose proof (len_nonneg kids) as Hk0. fold k in Hk0.
  pose proof (rsizes_nonneg rs1) as H1. pose proof (rsizes_nonneg rs2) as H2.
  pose proof (rsizes_nonneg rs3) as H3.
  assert (Hsz : rsizes rs' = rsizes rs1 + rsizes rs2 + rsizes rs3)
    by (unfold rs'; rewrite !rsizes_app; lia).
  assert (Hlen1 : len rs1 = idx) by (apply len_firstn; lia).
  assert (Hlen2 : len rs2 = k) by (apply len_routing; exact HF).
  assert (Hlen3 : len rs3 = n - (idx + 1)) by (apply len_skipn; lia).
  unfold nodeReplaceKidN. rewrite Hnk. cbn [bind]. fold k.
  rewrite (u16_small k) by lia.
  rewrite (u16_small (n + k)), (u16_small (n + k - 1)), (u16_small (idx + k)),
    (u16_small (idx + 1)), (u16_small (n - (idx + 1))) by lia.
  destruct (setHeader_Built nw BNODE_NODE (n + k - 1))
    as (nw1 & -> & HB1 & Hbt1 & Hln1); try lia.
  cbn [bind].
  destruct (nodeAppendRange_Built (n + k - 1) old rs nw1 [] 0 0 idx Hold HB1)
    as (nw2 & -> & HB2 & Hbt2 & Hln2);
    try reflexivity; try lia;
    try (change (Z.to_nat 0) with 0%nat; cbn [skipn app]; fold rs1; lia).
  { unfold len at 1. cbn [length]. lia. }
  cbn [bind]. change (Z.to_nat 0) with 0%nat in HB2. cbn [app skipn] in HB2.
  fold rs1 in HB2.
  destruct (replaceKids_loop_Built tree Hnew (n + k - 1) idx kids keys st nw2 rs1 0
              HB2 HF)
    as (nw3 & -> & HB3 & Hbt3 & Hln3); try (fold ids rs2 k; lia); try lia.
  { fold ids rs2. rewrite rsizes_app. lia. }
  { fold ids rs2. rewrite rsizes_app. lia. }
  cbn [bind]. fold ids rs2 in HB3.
  assert (Hrs3 : firstn (Z.to_nat (n - (idx + 1))) (skipn (Z.to_nat (idx + 1)) rs) = rs3).
  { apply firstn_all2. fold rs3. unfold len in Hlen3. lia. }
  destruct (nodeAppendRange_Built (n + k - 1) old rs nw3 (rs1 ++ rs2) (idx + k)
              (idx + 1) (n - (idx + 1)) Hold HB3)
    as (nw4 & -> & HB4 & Hbt4 & Hln4);
    try (rewrite ?Hrs3, ?len_app, ?rsizes_app; lia).
  rewrite Hrs3 in HB4. rewrite <- app_assoc in HB4. fold rs' in HB4.
  cbn [bind]. exists nw4. splits; try reflexivity; try assumption.
  unfold rs'. rewrite !len_app. lia.
Qed.

(** X18.  The lookup routes to the new children: when the record
    sequence of the node that [nodeReplaceKidN] built has strictly
    increasing keys, looking up the first key of the [j]-th new child
    returns the index [idx + j], where the pointer is the page id
    allocated for that child and the value is empty. *)
Theorem nodeReplaceKidN_then_lookup {Store : Type} (tree : BTree Store)
    (st : Store) nw old idx kids rs keys :
  (forall node s, 0 <= fst (new tree node s) < 2 ^ 64) ->
  records old = Ok rs ->
  0 <= idx < len rs ->
  Forall2 (fun kid k => getKey kid 0 = Ok k) kids keys ->
  let ids := fst (alloc_all tree st kids) in
  let rs' := firstn (Z.to_nat idx) rs ++ routing ids keys
               ++ skipn (Z.to_nat (idx + 1)) rs in
  4 + 10 * (len rs + len kids - 1) + rsizes rs' <= len nw ->
  4 + 10 * (len rs + len kids - 1) + rsizes rs' < 2 ^ 16 ->
  (forall i j ri rj, (i < j)%nat ->
     nth_error rs' i = Some ri -> nth_error rs' j = Some rj ->
     Compare (rkey ri) (rkey rj) < 0) ->
  exists nw',
    nodeReplaceKidN tree st nw old idx kids
      = Ok (nw', snd (alloc_all tree st kids)) /\
    forall j r, nth_error (routing ids keys) j = Some r ->
      nodeLookupLE nw' (rkey r) = Ok (idx + Z.of_nat j) /\
      getPtr nw' (idx + Z.of_nat j) = Ok (rptr r) /\
      getVal nw' (idx + Z.of_nat j) = Ok [].
Proof.
  intros Hnew Hold Hidx HF ids rs' Hl Hb Hsorted.
  destruct (nodeReplaceKidN_Built tree st nw old idx kids rs keys Hnew Hold Hidx HF Hl Hb)
    as (nw' & Hrun & HB & Hlen' & Hlen2).
  fold ids rs' in HB, Hlen', Hlen2.
  exists nw'. split; [exact Hrun |].
  intros j r Ej.
  pose proof (len_length_lt _ _ _ Ej) as Hj.
  assert (Hlen1 : length (firstn (Z.to_nat idx) rs) = Z.to_nat idx).
  { rewrite length_firstn. unfold len in Hidx. lia. }
  assert (Hat : nth_error rs' (Z.to_nat idx + j) = Some r).
  { unfold rs'. rewrite nth_error_app2 by lia. rewrite Hlen1.
    replace (Z.to_nat idx + j - Z.to_nat idx)%nat with j by lia.
    rewrite nth_error_app1; [exact Ej |].
    assert (nth_error (routing ids keys) j <> None) as H by congruence.
    apply nth_error_Some in H. exact H. }
  assert (Hrv : rval r = []).
  { unfold routing in Ej. rewrite nth_error_map in Ej.
    destruct (nth_error (combine ids keys) j); cbn in Ej; [| discriminate].
    injection Ej as <-. reflexivity. }
  set (d := mkRecord 0 [] []).
  set (K := fun i : Z => rkey (nth (Z.to_nat i) rs' d)).
  assert (Hnth : forall i, 0 <= i < len rs' ->
            nth_error rs' (Z.to_nat i) = Some (nth (Z.to_nat i) rs' d)).
  { intros i Hi. apply nth_error_nth'. unfold len in *. lia. }
  assert (HK : forall i, 0 <= i < len rs' -> getKey nw' i = Ok (K i)).
  { intros i Hi.
    destruct (Built_getKey _ _ _ _ _ HB (Hnth i Hi)) as [H _].
    rewrite Z2Nat.id in H by lia. exact H. }
  pose proof (len_length_lt _ _ _ Hat) as Hidxj.
  replace (Z.of_nat (Z.to_nat idx + j)) with (idx + Z.of_nat j) in Hidxj by lia.
  assert (HKj : K (idx + Z.of_nat j) = rkey r).
  { unfold K. replace (Z.to_nat (idx + Z.of_nat j)) with (Z.to_nat idx + j)%nat by lia.
    rewrite (nth_error_nth _ _ _ Hat). reflexivity. }
  pose proof (Built_getRec _ _ _ _ _ HB Hat) as Hrec.
  replace (Z.of_nat (Z.to_nat idx + j)) with (idx + Z.of_nat j) in Hrec by lia.
  apply getRec_inv in Hrec as (Hp & _ & Hv). rewrite Hrv in Hv.
  splits; try assumption.
  rewrite <- HKj.
  apply (lookup_stored_key nw' (len rs') K (idx + Z.of_nat j)); try assumption; try lia.
  - rewrite Hlen'. apply HB.
  - intros i i' Hi Hii Hi'. unfold K.
    apply (Hsorted (Z.to_nat i) (Z.to_nat i')); try lia; apply Hnth; lia.
Qed.

(** ** A value that does not fit the buffer *)

Lemma load_write_truncated node q src :
  0 <= q <= len node -> len node <= q + len src ->
  load (write node q src) q (len node - q)
    = Ok (firstn (Z.to_nat (len node - q)) src).
Proof.
  intros Hq Hl. rewrite load_ok by (rewrite ?len_write; lia).
  f_equal. apply nth_error_ext. intros i.
  rewrite !nth_error_firstn, nth_error_skipn.
  unfold write. rewrite nth_error_upds. unfold len in *.
  destruct (Nat.ltb_spec i (Z.to_nat (Z.of_nat (length node) - q))); [| reflexivity].
  destruct (Nat.leb_spec (Z.to_nat q) (Z.to_nat q + i)); try lia.
  destruct (Nat.ltb_spec (Z.to_nat q + i) (Z.to_nat q + length src)); try lia.
  destruct (Nat.ltb_spec (Z.to_nat q + i) (length node)); try lia.
  cbn [andb]. f_equal. lia.
Qed.

(** X19.  [nodeAppendKV] does not check that the value fits: when the
    record header and the key fit the buffer but the value does not, it
    still succeeds; the bytes of the value that fit are written and the
    others dropped, the length field and the next offset count the whole
    value, and [getVal] at that index then stops out of range while
    [getKey] returns the key. *)
Theorem nodeAppendKV_truncates_value nw idx ptr key val n off :
  nkeys nw = Ok n ->
  0 <= idx < n ->
  getOffset nw idx = Ok off ->
  HEADER + 8 * n + 2 * n + off + 4 + len key <= len nw ->
  len nw < HEADER + 8 * n + 2 * n + off + 4 + len key + len val ->
  HEADER + 8 * n + 2 * n + off + 4 + len key + len val < 2 ^ 16 ->
  exists nw',
    nodeAppendKV nw idx ptr key val = Ok nw' /\
    len nw' = len nw /\
    getKey nw' idx = Ok key /\
    getVal nw' idx = Fault OutOfRange /\
    getOffset nw' (idx + 1) = Ok (off + 4 + len key + len val) /\
    load nw' (HEADER + 8 * n + 2 * n + off + 4 + len key)
         (len nw - (HEADER + 8 * n + 2 * n + off + 4 + len key))
      = Ok (firstn (Z.to_nat (len nw - (HEADER + 8 * n + 2 * n + off + 4 + len key)))
              val).
Proof.
  unfold HEADER. intros Hn Hi Ho Hl Hover Hb.
  pose proof (getOffset_inv _ _ _ Ho) as Hoff.
  pose proof (len_nonneg key) as Hk0. pose proof (len_nonneg val) as Hv0.
  set (nw' := appendKV_image nw n idx off ptr key val).
  assert (Hn' : nkeys nw' = Ok n).
  { unfold nw', appendKV_image. pose proof (u16_range (len key)).
    rewrite !nkeys_write by lia. exact Hn. }
  assert (Ho' : getOffset nw' idx = Ok off)
    by (unfold nw'; rewrite image_getOffset by (assumption || lia); exact Ho).
  assert (Hklen : Uint16_at nw' (4 + 10 * n + off) = Ok (len key)).
  { unfold nw', appendKV_image. rewrite (u16_small (len key)) by lia.
    rewrite !Uint16_at_write_frame by (rewrite ?len_le_split; lia).
    rewrite Uint16_at_write_same by (rewrite ?len_write; lia).
    rewrite u16_small by lia. reflexivity. }
  assert (Hvlen : Uint16_at nw' (4 + 10 * n + off + 2) = Ok (len val)).
  { unfold nw', appendKV_image. rewrite (u16_small (len key)) by lia.
    rewrite !Uint16_at_write_frame by (rewrite ?len_le_split; lia).
    rewrite Uint16_at_write_same by (rewrite ?len_write; lia).
    rewrite (u16_small (len val)) by lia. rewrite u16_small by lia.
    reflexivity. }
  assert (Hlen : len nw' = len nw) by apply image_len.
  exists nw'. splits.
  - apply nodeAppendKV_run; try assumption; rewrite u16_small; lia.
  - exact Hlen.
  - rewrite (getKey_eq nw' n idx off) by (assumption || lia).
    rewrite Hklen. cbn [bind].
    unfold nw', appendKV_image. rewrite (u16_small (len key)) by lia.
    frame_load. apply load_write_same_len; rewrite ?len_write; lia.
  - rewrite (getVal_eq nw' n idx off) by (assumption || lia).
    rewrite Hklen. cbn [bind]. rewrite Hvlen. cbn [bind].
    rewrite u16_small by lia. apply load_short. lia.
  - rewrite (getOffset_eq nw' n) by (assumption || lia).
    replace (4 + 8 * n + 2 * (idx + 1 - 1)) with (4 + 8 * n + 2 * idx) by lia.
    unfold nw', appendKV_image.
    rewrite Uint16_at_write_same by (rewrite ?len_write; lia).
    rewrite (u16_small (len key + len val)) by lia.
    rewrite (u16_small (off + 4 + (len key + len val))) by lia.
    rewrite u16_small by lia. f_equal. lia.
  - unfold nw', appendKV_image. rewrite (u16_small (len key)) by lia.
    replace (4 + 8 * n + 2 * n + off + 4 + len key)
      with (4 + 10 * n + off + 4 + len key) by lia.
    frame_load.
    replace (len nw) with
      (len (write (write (write (write nw (4 + 8 * idx) (le_split 8 ptr))
                  (4 + 10 * n + off) (le_split 2 (len key)))
                  (4 + 10 * n + off + 2) (le_split 2 (u16 (len val))))
                  (4 + 10 * n + off + 4) key))
      by (rewrite !len_write; reflexivity).
    apply load_write_truncated; rewrite ?len_write; lia.
Qed.

(** * The further properties at concrete nodes *)

Ltac cases_below_3 i H :=
  destruct i as [| [| [| i]]];
  [ | | | vm_compute in H; destruct i; discriminate H ].

Lemma nodeLookupLE_any_order_witness :
  exists r,
    nodeLookupLE leaf_153 (bytes_of [4]) = Ok r /\
    0 <= r /\ (r = 0 \/ r < 3) /\
    (forall j, 1 <= j <= r -> Compare (leaf_153_key j) (bytes_of [4]) <= 0) /\
    (forall j, 1 <= j < r -> Compare (leaf_153_key j) (bytes_of [4]) < 0) /\
    (r + 1 < 3 ->
     (1 <= r /\ Compare (leaf_153_key r) (bytes_of [4]) = 0) \/
     0 < Compare (leaf_153_key (r + 1)) (bytes_of [4])).
Proof.
  apply (nodeLookupLE_any_order leaf_153 (bytes_of [4]) 3 leaf_153_key).
  - vm_compute; reflexivity.
  - intros i Hi. assert (i = 1 \/ i = 2) as [-> | ->] by lia;
      vm_compute; reflexivity.
Defined.

Lemma nodeLookupLE_finds_stored_key_witness :
  nodeLookupLE leaf_135 (leaf_135_key 2) = Ok 2.
Proof.
  apply (nodeLookupLE_finds_stored_key leaf_135 3 leaf_135_key 2).
  - vm_compute; reflexivity.
  - intros i Hi. assert (i = 0 \/ i = 1 \/ i = 2) as [-> | [-> | ->]] by lia;
      vm_compute; reflexivity.
  - intros i j Hi Hij Hj.
    assert ((i = 0 /\ j = 1) \/ (i = 0 /\ j = 2) \/ (i = 1 /\ j = 2))
      as [[-> ->] | [[-> ->] | [-> ->]]] by lia;
      vm_compute; reflexivity.
  - lia.
Defined.

Lemma nodeLookupLE_monotone_witness :
  exists r1 r2,
    nodeLookupLE leaf_135 (bytes_of [2]) = Ok r1 /\
    nodeLookupLE leaf_135 (bytes_of [4; 0]) = Ok r2 /\
    r1 <= r2.
Proof.
  apply (nodeLookupLE_monotone leaf_135 3 leaf_135_key (bytes_of [2]) (bytes_of [4; 0])).
  - vm_compute; reflexivity.
  - intros i Hi. assert (i = 1 \/ i = 2) as [-> | ->] by lia;
      vm_compute; reflexivity.
  - intros i j Hi Hij Hj. assert (i = 1) as -> by lia. assert (j = 2) as -> by lia.
    vm_compute; reflexivity.
  - vm_compute. discriminate.
Defined.

Lemma nodeLookupLE_ends_witness :
  ((forall i, 1 <= i < 3 -> 0 < Compare (leaf_135_key i) (bytes_of [0])) ->
   nodeLookupLE leaf_135 (bytes_of [0]) = Ok 0) /\
  ((forall i, 1 <= i < 3 -> Compare (leaf_135_key i) (bytes_of [0]) < 0) ->
   nodeLookupLE leaf_135 (bytes_of [0]) = Ok (3 - 1)).
Proof.
  apply (nodeLookupLE_ends leaf_135 3 leaf_135_key (bytes_of [0])).
  - vm_compute; reflexivity.
  - intros i Hi. assert (i = 1 \/ i = 2) as [-> | ->] by lia;
      vm_compute; reflexivity.
  - lia.
Defined.

Lemma nodeAppendKV_readback_witness :
  exists nw',
    nodeAppendKV fresh_leaf_2 0 77 (bytes_of [1]) (bytes_of [97; 98]) = Ok nw' /\
    getPtr nw' 0 = Ok 77 /\
    getKey nw' 0 = Ok (bytes_of [1]) /\
    getVal nw' 0 = Ok (bytes_of [97; 98]) /\
    nkeys nw' = Ok 2 /\ btype nw' = btype fresh_leaf_2 /\ len nw' = len fresh_leaf_2.
Proof.
  apply (nodeAppendKV_readback fresh_leaf_2 0 77 (bytes_of [1]) (bytes_of [97; 98]) 2 0);
    by_computation.
Defined.

Lemma nodeAppendKV_keeps_earlier_witness :
  exists nw',
    nodeAppendKV half_built 1 0 (bytes_of [2]) (bytes_of [99]) = Ok nw' /\
    getRec nw' 0 = Ok (mkRecord 0 (bytes_of [1]) (bytes_of [97; 98])) /\
    getOffset nw' 0 = Ok 0.
Proof.
  apply (nodeAppendKV_keeps_earlier half_built 1 0 (bytes_of [2]) (bytes_of [99])
           2 7 0 0 (mkRecord 0 (bytes_of [1]) (bytes_of [97; 98])));
    by_computation.
Defined.

Lemma copy_records_roundtrip_witness :
  exists nw1 nw',
    setHeader (make 64) BNODE_LEAF (len leaf_135_records) = Ok nw1 /\
    nodeAppendRange nw1 leaf_135 0 0 (len leaf_135_records) = Ok nw' /\
    records nw' = Ok leaf_135_records /\
    btype nw' = Ok (u16 BNODE_LEAF) /\
    nbytes nw' = Ok (HEADER + 10 * len leaf_135_records + rsizes leaf_135_records).
Proof.
  apply (copy_records_roundtrip (make 64) leaf_135 BNODE_LEAF leaf_135_records);
    by_computation.
Defined.

Lemma leafInsert_offsets_witness :
  exists nw',
    leafInsert (make 64) leaf_15 1 (bytes_of [3]) (bytes_of [99]) = Ok nw' /\
    (forall i, (i <= 2 + 1)%nat ->
       getOffset nw' (Z.of_nat i) =
         Ok (rsizes (firstn i
               (firstn (Z.to_nat 1)
                  [ mkRecord 0 (bytes_of [1]) (bytes_of [97]);
                    mkRecord 0 (bytes_of [5]) (bytes_of [98]) ] ++
                mkRecord 0 (bytes_of [3]) (bytes_of [99]) ::
                skipn (Z.to_nat 1)
                  [ mkRecord 0 (bytes_of [1]) (bytes_of [97]);
                    mkRecord 0 (bytes_of [5]) (bytes_of [98]) ])))) /\
    nbytes nw' = Ok 52 /\
    len nw' = 64.
Proof.
  apply (leafInsert_offsets (make 64) leaf_15 1 (bytes_of [3]) (bytes_of [99])
           [ mkRecord 0 (bytes_of [1]) (bytes_of [97]);
             mkRecord 0 (bytes_of [5]) (bytes_of [98]) ]);
    by_computation.
Defined.

Lemma leafInsert_then_lookup_witness :
  exists nw',
    leafInsert (make 64) leaf_15 1 (bytes_of [3]) (bytes_of [99]) = Ok nw' /\
    nodeLookupLE nw' (bytes_of [3]) = Ok 1 /\
    getKey nw' 1 = Ok (bytes_of [3]) /\
    getVal nw' 1 = Ok (bytes_of [99]).
Proof.
  apply (leafInsert_then_lookup (make 64) leaf_15 1 (bytes_of [3]) (bytes_of [99])
           [ mkRecord 0 (bytes_of [1]) (bytes_of [97]);
             mkRecord 0 (bytes_of [5]) (bytes_of [98]) ]);
    try by_computation.
  intros i j ri rj Hij Hi Hj.
  cases_below_3 i Hi; cases_below_3 j Hj; try lia;
    vm_compute in Hi, Hj; injection Hi as <-; injection Hj as <-;
    vm_compute; reflexivity.
Defined.

Lemma leafInsert_index_past_end_witness :
  leafInsert (make 64) leaf_15 5 (bytes_of [3]) (bytes_of [99])
    = Fault (AssertFailed "index less than value").
Proof.
  apply (leafInsert_index_past_end (make 64) leaf_15 5 (bytes_of [3]) (bytes_of [99])
           [ mkRecord 0 (bytes_of [1]) (bytes_of [97]);
             mkRecord 0 (bytes_of [5]) (bytes_of [98]) ]);
    by_computation.
Defined.

Lemma leafInsert_then_split_fits_witness :
  exists nw',
    leafInsert (make BTREE_PAGE_SIZE) leaf_15 1 (bytes_of [3]) (bytes_of [99]) = Ok nw' /\
    nbytes nw' = Ok 52 /\
    nodeSplit3 nw' = Ok (1, (firstn (Z.to_nat BTREE_PAGE_SIZE) nw', [], [])) /\
    len (firstn (Z.to_nat BTREE_PAGE_SIZE) nw') = BTREE_PAGE_SIZE /\
    btype (firstn (Z.to_nat BTREE_PAGE_SIZE) nw') = Ok BNODE_LEAF /\
    records (firstn (Z.to_nat BTREE_PAGE_SIZE) nw') = Ok leaf_135_records.
Proof.
  apply (leafInsert_then_split_fits (make BTREE_PAGE_SIZE) leaf_15 1
           (bytes_of [3]) (bytes_of [99])
           [ mkRecord 0 (bytes_of [1]) (bytes_of [97]);
             mkRecord 0 (bytes_of [5]) (bytes_of [98]) ]);
    by_computation.
Defined.

Lemma single_record_fits_page_witness :
  exists nw' sz,
    leafInsert (make (2 * BTREE_PAGE_SIZE)) empty_leaf 0 (max_key 1) (max_val 7)
      = Ok nw' /\
    nbytes nw' = Ok sz /\ sz <= node1max /\ node1max <= BTREE_PAGE_SIZE /\
    nodeSplit3 nw' = Ok (1, (firstn (Z.to_nat BTREE_PAGE_SIZE) nw', [], [])) /\
    records (firstn (Z.to_nat BTREE_PAGE_SIZE) nw')
      = Ok [mkRecord 0 (max_key 1) (max_val 7)].
Proof.
  apply (single_record_fits_page (make (2 * BTREE_PAGE_SIZE)) empty_leaf
           (max_key 1) (max_val 7));
    by_computation.
Defined.

Lemma nodeReplaceKidN_empty_child_witness :
  nodeReplaceKidN counter_tree 9 (make 64) inner_15 0 ([leaf_1] ++ empty_leaf :: [leaf_3])
    = Fault (AssertFailed "index is greater than nkeys").
Proof.
  apply (nodeReplaceKidN_empty_child counter_tree 9 (make 64) inner_15 0
           [leaf_1] empty_leaf [leaf_3] inner_15_records [bytes_of [1]]).
  - intros node s. cbn [new counter_tree fst]. apply Z.mod_pos_bound. reflexivity.
  - vm_compute; reflexivity.
  - by_computation.
  - repeat constructor.
  - vm_compute; reflexivity.
  - by_computation.
  - by_computation.
Defined.

Lemma nodeReplaceKidN_then_lookup_witness :
  exists nw',
    nodeReplaceKidN counter_tree 9 (make 64) inner_15 0 [leaf_1; leaf_3]
      = Ok (nw', 11) /\
    forall j r,
      nth_error [ mkRecord 9 (bytes_of [1]) []; mkRecord 10 (bytes_of [3]) [] ] j
        = Some r ->
      nodeLookupLE nw' (rkey r) = Ok (0 + Z.of_nat j) /\
      getPtr nw' (0 + Z.of_nat j) = Ok (rptr r) /\
      getVal nw' (0 + Z.of_nat j) = Ok [].
Proof.
  apply (nodeReplaceKidN_then_lookup counter_tree 9 (make 64) inner_15 0
           [leaf_1; leaf_3] inner_15_records [bytes_of [1]; bytes_of [3]]).
  - intros node s. cbn [new counter_tree fst]. apply Z.mod_pos_bound. reflexivity.
  - vm_compute; reflexivity.
  - by_computation.
  - repeat constructor.
  - by_computation.
  - by_computation.
  - intros i j ri rj Hij Hi Hj.
    cases_below_3 i Hi; cases_below_3 j Hj; try lia;
      vm_compute in Hi, Hj; injection Hi as <-; injection Hj as <-;
      vm_compute; reflexivity.
Defined.

Lemma nodeAppendKV_truncates_value_witness :
  exists nw',
    nodeAppendKV fresh_leaf_1 0 0 (bytes_of [1]) val_100 = Ok nw' /\
    len nw' = len fresh_leaf_1 /\
    getKey nw' 0 = Ok (bytes_of [1]) /\
    getVal nw' 0 = Fault OutOfRange /\
    getOffset nw' (0 + 1) = Ok (0 + 4 + len (bytes_of [1]) + len val_100) /\
    load nw' (HEADER + 8 * 1 + 2 * 1 + 0 + 4 + len (bytes_of [1]))
         (len fresh_leaf_1 - (HEADER + 8 * 1 + 2 * 1 + 0 + 4 + len (bytes_of [1])))
      = Ok (firstn (Z.to_nat (len fresh_leaf_1 -
                               (HEADER + 8 * 1 + 2 * 1 + 0 + 4 + len (bytes_of [1]))))
              val_100).
Proof.
  apply (nodeAppendKV_truncates_value fresh_leaf_1 0 0 (bytes_of [1]) val_100 1 0);
    by_computation.
Defined.
